(** * Clarkie: the breadth-first site scraper of [extract_clarku_catalog_links.ipynb]

    A shallow embedding of the second notebook of the file (cells
    "Enhanced URL Collection and Processing" and "Main Execution"):
    [get_domain], [extract_links], [fetch_url], [extract_content] and the
    crawl loop of [main].

    Python values are modelled as follows.
    - [str] is [string]; a character is a code point below 256.
    - A parsed document (a BeautifulSoup tree) is a [node].
    - [visited_urls] (a Python [set]) is a [gset string];
      [urls_to_visit] (a [deque]) and [all_entries] are lists.
    - The libraries the notebook calls are parameters of the development:
      the HTML parser, [urlparse(..).netloc], the iteration order of a
      Python [set] and the network.  Each may fail where the library may
      raise. *)

From stdpp Require Import gmap strings list pretty.
From Stdlib Require Import Ascii String.

Set Warnings "-register-all".

Open Scope string_scope.
Open Scope list_scope.

(** ** Python [str] methods used by the notebook *)

Module PyStr.

(** [str.isspace] on one character (code points below 256): the ASCII
    white space, the separators 0x1c-0x1f, NEL and the no-break space. *)
Definition isspace (c : ascii) : bool :=
  let n := nat_of_ascii c in
  (Nat.leb 9 n && Nat.leb n 13) || (Nat.leb 28 n && Nat.leb n 32)
  || Nat.eqb n 133 || Nat.eqb n 160.

(** [s.startswith(p)] *)
Definition startswith (s p : string) : bool := String.prefix p s.

(** [not s] for a string: true on the empty string only. *)
Definition is_empty (s : string) : bool :=
  match s with EmptyString => true | String _ _ => false end.

(** [s.lstrip()], [s.rstrip()], [s.strip()] *)
Fixpoint lstrip (s : string) : string :=
  match s with
  | EmptyString => EmptyString
  | String c r => if isspace c then lstrip r else s
  end.

Fixpoint rstrip (s : string) : string :=
  match s with
  | EmptyString => EmptyString
  | String c r =>
      let r' := rstrip r in
      if isspace c && is_empty r' then EmptyString else String c r'
  end.

Definition strip (s : string) : string := rstrip (lstrip s).

(** [s.split()]: the maximal runs of characters that are not white space.
    [cur] is the run being read, in reverse. *)
Fixpoint split_go (cur : list ascii) (s : string) : list string :=
  let flush (k : list string) :=
    match cur with
    | [] => k
    | _ :: _ => string_of_list_ascii (rev cur) :: k
    end in
  match s with
  | EmptyString => flush []
  | String c r =>
      if isspace c then flush (split_go [] r) else split_go (c :: cur) r
  end.

Definition split (s : string) : list string := split_go [] s.

(** [s.split(sep)[0]] for a one-character separator: the part of [s]
    before its first [sep], all of [s] when there is none. *)
Fixpoint split_head (sep : ascii) (s : string) : string :=
  match s with
  | EmptyString => EmptyString
  | String c r => if Ascii.eqb c sep then EmptyString else String c (split_head sep r)
  end.

(** [sep.join(parts)] *)
Fixpoint join (sep : string) (parts : list string) : string :=
  match parts with
  | [] => EmptyString
  | [p] => p
  | p :: ps => p +:+ sep +:+ join sep ps
  end.

(** Truth value of an optional string: [None] and [""] are false. *)
Definition truthy (o : option string) : bool :=
  match o with
  | None => false
  | Some s => negb (is_empty s)
  end.

(** [not l] for a list. *)
Definition is_empty_list {A : Type} (l : list A) : bool :=
  match l with [] => true | _ :: _ => false end.

End PyStr.

(** ** The document tree

    A BeautifulSoup tree after parsing.  [Text] is a string that
    [get_text] yields (NavigableString, CData); [Comment] stands for the
    string nodes [get_text] passes over (comments, doctype, declarations);
    [Element] is a tag with its attributes as written in the markup and
    its children.  The attribute list is read by first match, as the
    parser's dictionary is.  The parser stores [class] split at white
    space, the other attributes the notebook reads as one string. *)

Inductive node : Type :=
| Text (s : string)
| Comment (s : string)
| Element (name : string) (attrs : list (string * string)) (contents : list node).

Module Soup.
Import PyStr.

(** [tag.name]; [None] for string nodes. *)
Definition name (n : node) : option string :=
  match n with
  | Element nm _ _ => Some nm
  | _ => None
  end.

(** [n.name in names] *)
Definition name_in (names : list string) (n : node) : bool :=
  match name n with
  | Some nm => bool_decide (nm ∈ names)
  | None => false
  end.

(** [tag.get(attr)] *)
Fixpoint get_attr (attrs : list (string * string)) (a : string) : option string :=
  match attrs with
  | [] => None
  | (k, v) :: r => if String.eqb k a then Some v else get_attr r a
  end.

Definition attr (n : node) (a : string) : option string :=
  match n with
  | Element _ attrs _ => get_attr attrs a
  | _ => None
  end.

(** Truth value of a node: a tag is always true, a string node is a
    [str] and is false when empty. *)
Definition truthy_node (n : node) : bool :=
  match n with
  | Text s | Comment s => negb (is_empty s)
  | Element _ _ _ => true
  end.

(** [tag.descendants], in document order, each with the siblings that
    follow it ([next_sibling], [next_sibling.next_sibling], ...). *)
Fixpoint descendants (n : node) : list (node * list node) :=
  match n with
  | Element _ _ cs =>
      (fix go (l : list node) : list (node * list node) :=
         match l with
         | [] => []
         | c :: r => (c, r) :: descendants c ++ go r
         end) cs
  | _ => []
  end.

(** [tag.find_all(..)] with the search criterion as a predicate, and
    [tag.find(..)]. *)
Definition find_all (p : node → bool) (n : node) : list node :=
  List.filter p (map fst (descendants n)).

Definition find (p : node → bool) (n : node) : option node :=
  head (find_all p n).

(** The strings [get_text(strip=True)] joins: every [Text] below the
    node (the node itself when it is a [Text]), stripped, the empty ones
    dropped. *)
Fixpoint stripped_strings (n : node) : list string :=
  match n with
  | Text s => let t := strip s in if is_empty t then [] else [t]
  | Comment _ => []
  | Element _ _ cs =>
      (fix go (l : list node) : list string :=
         match l with
         | [] => []
         | c :: r => stripped_strings c ++ go r
         end) cs
  end.

(** [n.get_text(sep, strip=True)] *)
Definition get_text (sep : string) (n : node) : string :=
  join sep (stripped_strings n).

(** The effect of [for element in soup.find_all(names): element.decompose()]:
    every element with one of the names is cut out, at any depth. *)
Fixpoint decompose_all (names : list string) (n : node) : node :=
  match n with
  | Element nm attrs cs =>
      Element nm attrs
        ((fix go (l : list node) : list node :=
            match l with
            | [] => []
            | c :: r =>
                if name_in names c then go r
                else decompose_all names c :: go r
            end) cs)
  | _ => n
  end.

(** No string node at or below [n] is empty. *)
Fixpoint solid (n : node) : bool :=
  match n with
  | Text s | Comment s => negb (is_empty s)
  | Element _ _ cs =>
      (fix go (l : list node) : bool :=
         match l with
         | [] => true
         | c :: r => solid c && go r
         end) cs
  end.

(** [descendants] and [solid] for the children of an element. *)
Fixpoint descendants_list (l : list node) : list (node * list node) :=
  match l with
  | [] => []
  | c :: r => (c, r) :: descendants c ++ descendants_list r
  end.

Fixpoint solid_list (l : list node) : bool :=
  match l with
  | [] => true
  | c :: r => solid c && solid_list r
  end.

End Soup.

(** ** Python's [repr] of the content dictionary, and reading it back

    [extract_content] returns [str(content_dict)], which is the [repr] of
    a dictionary of a list of dictionaries of strings; [main] reads it back
    with [eval]. *)

(** One block of extracted text: [{'header': h, 'text': t}] or, for the
    fallback block, [{'text': t}]. *)
Record section : Type := Section_ { header : option string; text : string }.

Module PyRepr.
Import PyStr.

Definition chr (n : nat) : ascii := ascii_of_nat n.
Definition squote : ascii := chr 39.
Definition dquote : ascii := chr 34.
Definition backslash : ascii := chr 92.

Fixpoint contains (c : ascii) (s : string) : bool :=
  match s with
  | EmptyString => false
  | String d r => Ascii.eqb c d || contains c r
  end.

(** The quote [repr] encloses a string in: double quotes when the string
    has a single quote and no double quote, single quotes otherwise. *)
Definition quote_for (s : string) : ascii :=
  if contains squote s && negb (contains dquote s) then dquote else squote.

Definition hex_digit (n : nat) : ascii :=
  nth n (list_ascii_of_string "0123456789abcdef") "0"%char.

(** Code points [repr] writes as [\xNN]: the control characters, DEL,
    and the Latin-1 characters that are not printable. *)
Definition unprintable (c : ascii) : bool :=
  let n := nat_of_ascii c in
  Nat.ltb n 32 || Nat.eqb n 127 || (Nat.leb 128 n && Nat.leb n 160) || Nat.eqb n 173.

Definition repr_char (q c : ascii) : string :=
  if Ascii.eqb c q || Ascii.eqb c backslash then String backslash (String c "")
  else if Ascii.eqb c (chr 9) then String backslash "t"
  else if Ascii.eqb c (chr 10) then String backslash "n"
  else if Ascii.eqb c (chr 13) then String backslash "r"
  else if unprintable c then
    let n := nat_of_ascii c in
    String backslash (String "x" (String (hex_digit (n / 16)) (String (hex_digit (n mod 16)) "")))
  else String c "".

Fixpoint repr_chars (q : ascii) (s : string) : string :=
  match s with
  | EmptyString => EmptyString
  | String c r => repr_char q c +:+ repr_chars q r
  end.

(** [repr(s)] for a string. *)
Definition repr_str (s : string) : string :=
  let q := quote_for s in
  String q (repr_chars q s) +:+ String q "".

(** [repr] of one section dictionary. *)
Definition repr_section (x : section) : string :=
  match header x with
  | Some h => "{'header': " +:+ repr_str h +:+ ", 'text': " +:+ repr_str (text x) +:+ "}"
  | None => "{'text': " +:+ repr_str (text x) +:+ "}"
  end.

(** [str({'sections': sections})] *)
Definition str_content (sections : list section) : string :=
  "{'sections': [" +:+ join ", " (map repr_section sections) +:+ "]}".

End PyRepr.

(** [eval] on the text [str_content] writes.  Python's [eval] accepts any
    expression; the reader below covers the literals that occur in such a
    text: the dictionary with the key ['sections'], the list, the section
    dictionaries, and string literals in single or double quotes with the
    escapes for the quotes, the backslash, tab, newline, carriage return and
    [\xNN].  [None] stands for the exception [eval] raises. *)
Module PyEval.
Import PyStr PyRepr.

(** Read the fixed text [p] at the head of [s]. *)
Fixpoint expect (p s : string) : option string :=
  match p, s with
  | EmptyString, _ => Some s
  | String a p', String b s' => if Ascii.eqb a b then expect p' s' else None
  | String _ _, EmptyString => None
  end.

Definition hex_val (c : ascii) : option nat :=
  let n := nat_of_ascii c in
  if Nat.leb 48 n && Nat.leb n 57 then Some (n - 48)
  else if Nat.leb 97 n && Nat.leb n 102 then Some (n - 87)
  else if Nat.leb 65 n && Nat.leb n 70 then Some (n - 55)
  else None.

Definition push (c : ascii) (r : option (string * string)) : option (string * string) :=
  match r with
  | Some (s, rest) => Some (String c s, rest)
  | None => None
  end.

(** The body of a string literal opened with the quote [q], up to the
    closing quote; returns the string denoted and the text after it. *)
Fixpoint read_chars (q : ascii) (s : string) : option (string * string) :=
  match s with
  | EmptyString => None
  | String c r =>
      if Ascii.eqb c q then Some (EmptyString, r)
      else if Ascii.eqb c backslash then
        match r with
        | EmptyString => None
        | String e r1 =>
            if Ascii.eqb e squote || Ascii.eqb e dquote || Ascii.eqb e backslash
            then push e (read_chars q r1)
            else if Ascii.eqb e "t" then push (chr 9) (read_chars q r1)
            else if Ascii.eqb e "n" then push (chr 10) (read_chars q r1)
            else if Ascii.eqb e "r" then push (chr 13) (read_chars q r1)
            else if Ascii.eqb e "x" then
              match r1 with
              | String h1 (String h2 r2) =>
                  match hex_val h1, hex_val h2 with
                  | Some a, Some b => push (chr (16 * a + b)) (read_chars q r2)
                  | _, _ => None
                  end
              | _ => None
              end
            else None
        end
      else push c (read_chars q r)
  end.

Definition read_str (s : string) : option (string * string) :=
  match s with
  | EmptyString => None
  | String q r =>
      if Ascii.eqb q squote || Ascii.eqb q dquote then read_chars q r else None
  end.

Definition read_section (s : string) : option (section * string) :=
  match expect "{'header': " s with
  | Some s1 =>
      '(h, s2) ← read_str s1;
      s3 ← expect ", 'text': " s2;
      '(t, s4) ← read_str s3;
      s5 ← expect "}" s4;
      Some (Section_ (Some h) t, s5)
  | None =>
      s1 ← expect "{'text': " s;
      '(t, s2) ← read_str s1;
      s3 ← expect "}" s2;
      Some (Section_ None t, s3)
  end.

(** The items of a list that is not empty, up to the closing bracket. *)
Fixpoint read_sections (fuel : nat) (s : string) : option (list section * string) :=
  match fuel with
  | 0 => None
  | S f =>
      '(x, s1) ← read_section s;
      match expect "]" s1 with
      | Some s2 => Some ([x], s2)
      | None =>
          s2 ← expect ", " s1;
          '(xs, s3) ← read_sections f s2;
          Some (x :: xs, s3)
      end
  end.

(** [eval(content).get('sections', [])] *)
Definition eval_content (s : string) : option (list section) :=
  s1 ← expect "{'sections': [" s;
  match expect "]" s1 with
  | Some s2 => if String.eqb s2 "}" then Some [] else None
  | None =>
      '(xs, s2) ← read_sections (String.length s1) s1;
      if String.eqb s2 "}" then Some xs else None
  end.

End PyEval.

(** ** The notebook's functions *)

(** What a call that may raise gives back. *)
Inductive outcome (A : Type) : Type :=
| Raised
| Returned (a : A).
Arguments Raised {A}.
Arguments Returned {A} a.

(** One element of [all_entries]: the dictionary with the keys ["id"],
    ["title"], ["url"] and ["text"]. *)
Record entry : Type := Entry {
  entry_id : string;
  entry_title : string;
  entry_url : string;
  entry_text : string
}.

(** The local variables of [main], with the list of the URLs [fetch_url]
    was called on so far (oldest first). *)
Record state : Type := State {
  all_entries : list entry;
  visited_urls : gset string;
  urls_to_visit : list string;
  counter : nat;
  skipped_urls : nat;
  empty_content_urls : nat;
  requests : list string
}.

(** *** The libraries the notebook calls *)
Class Libraries : Type := {
  (** [BeautifulSoup(html, 'html.parser')]: the top-level nodes of the
      document, [None] when the parser raises. *)
  BeautifulSoup : string → option (list node);
  (** [urlparse(url).netloc], [None] when [urlparse] raises. *)
  urlparse_netloc : string → option string;
  (** [list(set(links))]: the elements of [links] in the order the set
      iterates. *)
  list_set : list string → list string;
  (** [requests.get(url, ..)] followed by [raise_for_status()] and [.text],
      for the request number [n] of the run (from 0): the body, or [None]
      when any of them raises. *)
  requests_get : nat → string → option string
}.

(** A Python [set] holds each element once. *)
Class SetOrder (L : Libraries) : Prop := {
  list_set_NoDup : ∀ l, NoDup (list_set l);
  list_set_elem : ∀ l x, x ∈ list_set l ↔ x ∈ l
}.

Module Clarkie.
Section Notebook.
Import PyStr PyRepr PyEval Soup.

Context {L : Libraries}.

(** The parameters of the run: [50] and the Clark home page in the
    notebook. *)
Variable max_urls : nat.
Variable root_url : string.

Definition soup_of (contents : list node) : node :=
  Element "[document]" [] contents.

(** *** [get_domain] *)
Definition get_domain (url : string) : option string := urlparse_netloc url.

(** *** [extract_links] *)

(** The [if]/[elif] on one [href]: the absolute URL, or [None] for the
    [continue]. *)
Definition resolve_href (domain href : string) : option string :=
  if startswith href "/" then Some ("https://" +:+ domain +:+ href)
  else if negb (startswith href "http://" || startswith href "https://") then None
  else Some href.

(** The loop over the anchors; [None] when [get_domain] raises. *)
Fixpoint same_domain_links (domain : string) (hrefs : list string) : option (list string) :=
  match hrefs with
  | [] => Some []
  | href :: r =>
      match resolve_href domain href with
      | None => same_domain_links domain r
      | Some href' =>
          d ← get_domain href';
          links ← same_domain_links domain r;
          Some (if String.eqb d domain then href' :: links else links)
      end
  end.

(** [soup.find_all('a', href=True)], each anchor's [a_tag['href']]. *)
Definition anchors_href (soup : node) : list string :=
  omap (λ a, attr a "href") (find_all (name_in ["a"]) soup).

Definition extract_links (html base_url : string) : option (list string) :=
  contents ← BeautifulSoup html;
  domain ← get_domain base_url;
  links ← same_domain_links domain (anchors_href (soup_of contents));
  Some (list_set links).

(** *** [fetch_url] *)
Definition fetch_url (n : nat) (url : string) : option string := requests_get n url.

(** *** [extract_content] *)

Definition noise_tags : list string :=
  ["nav"; "header"; "footer"; "script"; "style"; "noscript"; "iframe"; "svg"; "aside"; "form"].

Definition heading_tags : list string := ["h1"; "h2"; "h3"; "h4"].

(** [main_content_tags]: each selector's tag and its [attrs] dictionary. *)
Definition main_content_tags : list (string * list (string * list string)) :=
  [ ("div", [("id", ["content"; "main-content"; "mainContent"; "main"])]);
    ("main", []);
    ("article", []);
    ("div", [("class", ["content"; "main-content"; "main"; "article"; "post"])]) ].

(** The title: the first [title] element, else the first [h1]. *)
Definition page_title (soup : node) : string :=
  match find (name_in ["title"]) soup with
  | Some title_tag => get_text "" title_tag
  | None =>
      match find (name_in ["h1"]) soup with
      | Some h1_tag => get_text "" h1_tag
      | None => ""
      end
  end.

(** [lambda x: x and value in x.split() if x else False] applied to the
    attribute [attr_name] of [n]. *)
Definition attr_has (attr_name value : string) (n : node) : bool :=
  match attr n attr_name with
  | Some x => negb (is_empty x) && bool_decide (value ∈ split x)
  | None => false
  end.

(** [max(elements, key=..)]: the first element with the greatest key. *)
Fixpoint max_by {A : Type} (key : A → nat) (best : A) (l : list A) : A :=
  match l with
  | [] => best
  | x :: r => max_by key (if Nat.ltb (key best) (key x) then x else best) r
  end.

Definition text_length (e : node) : nat := String.length (get_text "" e).

(** [for value in attr_values: ..]: the first value some [tag] element
    carries decides. *)
Fixpoint try_values (soup : node) (tag attr_name : string) (values : list string) : option node :=
  match values with
  | [] => None
  | value :: vs =>
      match find_all (λ n, name_in [tag] n && attr_has attr_name value n) soup with
      | [] => try_values soup tag attr_name vs
      | e :: es => Some (max_by text_length e es)
      end
  end.

(** [for attr_name, attr_values in attrs.items(): ..] *)
Fixpoint try_attrs (soup : node) (tag : string) (attrs : list (string * list string)) : option node :=
  match attrs with
  | [] => None
  | (attr_name, attr_values) :: r =>
      match try_values soup tag attr_name attr_values with
      | Some e => Some e
      | None => try_attrs soup tag r
      end
  end.

(** [for selector in main_content_tags: ..] *)
Fixpoint try_selectors (soup : node) (selectors : list (string * list (string * list string))) : option node :=
  match selectors with
  | [] => None
  | (tag, attrs) :: r =>
      match try_attrs soup tag attrs with
      | Some e => Some e
      | None => try_selectors soup r
      end
  end.

(** [soup.body or soup] *)
Definition body_or_soup (soup : node) : node :=
  default soup (find (name_in ["body"]) soup).

Definition select_main_content (soup : node) : node :=
  default (body_or_soup soup) (try_selectors soup main_content_tags).

(** The [while sibling and sibling.name not in [..]] loop over the
    siblings after a header.  Every node has [get_text] (BeautifulSoup
    4.10 and later), so the [hasattr] test holds; a string node is a
    [str], and the loop ends at an empty one as it does at [None]. *)
Fixpoint content_parts (siblings : list node) : list string :=
  match siblings with
  | [] => []
  | sibling :: r =>
      if truthy_node sibling && negb (name_in heading_tags sibling) then
        let t := get_text "" sibling in
        (if is_empty t then [] else [t]) ++ content_parts r
      else []
  end.

Definition header_section (h : node * list node) : list section :=
  let header_text := get_text "" (fst h) in
  if is_empty header_text then []
  else
    let section_content := join " " (content_parts (snd h)) in
    [ Section_ (Some header_text)
        (if is_empty section_content then "No content in this section"
         else section_content) ].

(** The sections of the headers of the region, in document order. *)
Definition header_sections (main_content : node) : list section :=
  flat_map header_section
    (List.filter (λ h, name_in heading_tags (fst h)) (descendants main_content)).

Definition has_text (sections : list section) : bool :=
  existsb (λ x, negb (is_empty (text x))) sections.

(** The paragraph block, or the text of the whole region. *)
Definition fallback_section (main_content : node) : section :=
  match find_all (name_in ["p"]) main_content with
  | [] => Section_ None (get_text " " main_content)
  | paragraphs =>
      Section_ None
        (join " " (List.filter (λ t, negb (is_empty t)) (map (get_text "") paragraphs)))
  end.

Definition page_sections (main_content : node) : list section :=
  let sections := header_sections main_content in
  if is_empty_list sections || negb (has_text sections)
  then sections ++ [fallback_section main_content]
  else sections.

Definition extract_content (html url : string) : outcome (option string * option string) :=
  if is_empty html then Returned (None, None)
  else
    match BeautifulSoup html with
    | None => Raised
    | Some contents =>
        let soup := soup_of contents in
        let title := page_title soup in
        let soup := decompose_all noise_tags soup in
        let main_content := select_main_content soup in
        Returned (Some title, Some (str_content (page_sections main_content)))
    end.

(** The siblings after a header up to the next header, and the text of
    a section as the specification words it: the texts of these
    siblings that are not empty, joined by one space, or the marker. *)
Fixpoint until_heading (siblings : list node) : list node :=
  match siblings with
  | [] => []
  | sibling :: r =>
      if name_in heading_tags sibling then [] else sibling :: until_heading r
  end.

Definition section_text (siblings : list node) : string :=
  let joined :=
    join " " (List.filter (λ t, negb (is_empty t))
                (map (get_text "") (until_heading siblings))) in
  if is_empty joined then "No content in this section" else joined.

(** The links as the specification words them: a [href] that starts
    with [/] is put after the scheme and the domain of the base URL. *)
Definition resolve_href_spec (scheme domain href : string) : option string :=
  if startswith href "/" then Some (scheme +:+ "://" +:+ domain +:+ href)
  else if startswith href "http://" || startswith href "https://" then Some href
  else None.

Definition spec_links (scheme domain : string) (hrefs : list string) : list string :=
  List.filter (λ u, bool_decide (get_domain u = Some domain))
    (omap (resolve_href_spec scheme domain) hrefs).

(** What [extract_content] finds in a document that parses: the title
    and the sections, before they are written out as text. *)
Definition extracted (html : string) : option (string * list section) :=
  contents ← BeautifulSoup html;
  let soup := soup_of contents in
  Some (page_title soup,
        page_sections (select_main_content (decompose_all noise_tags soup))).

(** *** [main] *)

Definition set_queue (q : list string) (s : state) : state :=
  State (all_entries s) (visited_urls s) q (counter s) (skipped_urls s)
    (empty_content_urls s) (requests s).

Definition add_visited (u : string) (s : state) : state :=
  State (all_entries s) ({[u]} ∪ visited_urls s) (urls_to_visit s) (counter s)
    (skipped_urls s) (empty_content_urls s) (requests s).

Definition log_request (u : string) (s : state) : state :=
  State (all_entries s) (visited_urls s) (urls_to_visit s) (counter s)
    (skipped_urls s) (empty_content_urls s) (requests s ++ [u]).

(** [skipped_urls += 1] *)
Definition skip (s : state) : state :=
  State (all_entries s) (visited_urls s) (urls_to_visit s) (counter s)
    (S (skipped_urls s)) (empty_content_urls s) (requests s).

(** [empty_content_urls += 1] *)
Definition flag_empty (s : state) : state :=
  State (all_entries s) (visited_urls s) (urls_to_visit s) (counter s)
    (skipped_urls s) (S (empty_content_urls s)) (requests s).

(** [all_entries.append(entry); counter += 1] *)
Definition add_entry (e : entry) (s : state) : state :=
  State (all_entries s ++ [e]) (visited_urls s) (urls_to_visit s) (S (counter s))
    (skipped_urls s) (empty_content_urls s) (requests s).

(** The [entry] dictionary built in both branches of the inner [try]. *)
Definition make_entry (counter : nat) (title : option string) (current_url text : string) : entry :=
  Entry (pretty counter)
    (if truthy title then default "" title else "Untitled Page")
    current_url text.

(** The [if title or content: .. else: ..] block.  The [except] branch
    is taken when [eval(content)] raises. *)
Definition record_page (current_url : string) (title content : option string) (s : state) : state :=
  if truthy title || truthy content then
    let except :=
      add_entry
        (make_entry (counter s) title current_url
           (if truthy content then default "" content
            else "Unable to extract content")) s in
    match content with
    | None => except
    | Some c =>
        match eval_content c with
        | None => except
        | Some sections =>
            let s := if has_text sections then s else flag_empty s in
            add_entry (make_entry (counter s) title current_url c) s
        end
    end
  else skip s.

(** The test and [append] of the loop over [new_links]. *)
Definition enqueue (visited : gset string) (queue : list string) (link : string) : list string :=
  let base_link := split_head "#" link in
  if bool_decide (base_link ∉ visited) && bool_decide (link ∉ queue)
  then queue ++ [link]
  else queue.

(** The [if len(visited_urls) < max_urls: ..] block; a raising
    [extract_links] is caught and adds nothing. *)
Definition discover (html current_url : string) (s : state) : state :=
  if Nat.ltb (size (visited_urls s)) max_urls then
    match extract_links html current_url with
    | None => s
    | Some new_links =>
        set_queue (fold_left (enqueue (visited_urls s)) new_links (urls_to_visit s)) s
    end
  else s.

(** The state before the [while] loop: the first fetch of the root and
    its links put in the queue.  [None] when [extract_links] raises
    here, where nothing catches it. *)
Definition main_init : option state :=
  let start (q : list string) := State [] ∅ q 1 0 0 [root_url] in
  match fetch_url 0 root_url with
  | None => Some (start [root_url])
  | Some html =>
      if is_empty html then Some (start [root_url])
      else
        first_level_links ← extract_links html root_url;
        Some (start ([root_url] ++ first_level_links))
  end.

(** [urls_to_visit and len(visited_urls) < max_urls] *)
Definition loop_cond (s : state) : bool :=
  negb (is_empty_list (urls_to_visit s)) && Nat.ltb (size (visited_urls s)) max_urls.

(** One iteration of the [while] loop. *)
Definition loop_body (s : state) : state :=
  match urls_to_visit s with
  | [] => s
  | current_url :: rest =>
      let s := set_queue rest s in
      if bool_decide (current_url ∈ visited_urls s) then s
      else
        let base_url := split_head "#" current_url in
        if bool_decide (base_url ∈ visited_urls s) then s
        else
          let s := add_visited base_url s in
          let html := fetch_url (List.length (requests s)) current_url in
          let s := log_request current_url s in
          match html with
          | None => skip s
          | Some html =>
              if is_empty html then skip s
              else
                match extract_content html current_url with
                | Raised => skip s
                | Returned (title, content) =>
                    discover html current_url (record_page current_url title content s)
                end
          end
  end.

(** The [while] loop, for at most [fuel] iterations. *)
Fixpoint while (fuel : nat) (s : state) : option state :=
  if loop_cond s then
    match fuel with
    | 0 => None
    | S fuel' => while fuel' (loop_body s)
    end
  else Some s.

(** [main] up to the end of the loop: the final state. *)
Definition main (fuel : nat) : option state := main_init ≫= while fuel.

(** The entry number [i] (from 0) of [all_entries], given the requests
    made so far. *)
Definition entry_recorded (reqs : list string) (i : nat) (e : entry) : Prop :=
  entry_id e = pretty (S i)
  ∧ ∃ n html title sections,
      reqs !! n = Some (entry_url e)
      ∧ requests_get n (entry_url e) = Some html
      ∧ extracted html = Some (title, sections)
      ∧ entry_title e = (if is_empty title then "Untitled Page" else title)
      ∧ entry_text e = str_content sections.

(** The states at the head of the loop during a run. *)
Inductive reachable : state → Prop :=
| reachable_init s : main_init = Some s → reachable s
| reachable_step s : reachable s → loop_cond s = true → reachable (loop_body s).

End Notebook.
End Clarkie.

Import Clarkie.

(** ** Test fixtures: a small instance of the libraries *)

Module Fixture.
Import PyStr.

Definition scheme_char (c : ascii) : bool :=
  let n := nat_of_ascii c in
  (Nat.leb 97 n && Nat.leb n 122) || (Nat.leb 65 n && Nat.leb n 90)
  || (Nat.leb 48 n && Nat.leb n 57)
  || Ascii.eqb c "+" || Ascii.eqb c "-" || Ascii.eqb c ".".

(** The text after ["scheme:"], when the URL starts with a scheme. *)
Fixpoint after_scheme (s : string) : option string :=
  match s with
  | EmptyString => None
  | String c r =>
      if Ascii.eqb c ":" then Some r
      else if scheme_char c then after_scheme r
      else None
  end.

Fixpoint until_delim (s : string) : string :=
  match s with
  | EmptyString => EmptyString
  | String c r =>
      if Ascii.eqb c "/" || Ascii.eqb c "?" || Ascii.eqb c "#" then EmptyString
      else String c (until_delim r)
  end.

(** [urlsplit]'s network location for a URL of printable ASCII
    characters without brackets: what follows ["//"] after the scheme,
    up to the first of [/], [?] and [#]. *)
Definition netloc (url : string) : option string :=
  let rest :=
    match url with
    | String ":" _ => url
    | _ => default url (after_scheme url)
    end in
  Some (match rest with
        | String "/" (String "/" r) => until_delim r
        | _ => EmptyString
        end).

Fixpoint lookup {A : Type} (table : list (string * A)) (k : string) : option A :=
  match table with
  | [] => None
  | (k', v) :: r => if String.eqb k' k then Some v else lookup r k
  end.

(** The libraries over a table of documents (markup and its tree) and a
    table of pages (URL and body); every request of a URL gets the same
    answer, a URL that is not in the table fails. *)
Definition libs (docs : list (string * list node)) (web : list (string * string)) : Libraries :=
  {| BeautifulSoup := lookup docs;
     urlparse_netloc := netloc;
     list_set := remove_dups;
     requests_get := λ _, lookup web |}.

Definition el (name : string) (contents : list node) : node := Element name [] contents.
Definition p (s : string) : node := el "p" [Text s].
Definition a (href s : string) : node := Element "a" [("href", href)] [Text s].

(** A home page with one link, to a page that links to two fragments of
    a third page. *)
Definition home_html : string := "<a href='/a'>A</a>".
Definition a_html : string := "<a href='/b#x'>x</a><a href='/b#y'>y</a>".
Definition b_html : string := "<p>b</p>".

(** A page with an empty paragraph and nothing else. *)
Definition blank_html : string := "<p></p>".

(** A page whose [main] element holds a part of the text. *)
Definition main_html : string :=
  "<body><p>outside</p><main><p>inside</p></main></body>".

(** Two headers, each followed by its paragraphs. *)
Definition intro_html : string :=
  "<h1>Intro</h1><p>a</p><p>b</p><h1>Details</h1><p>c</p>".

Definition foo_html : string := "<a href='/foo'>foo</a>".

Definition docs : list (string * list node) :=
  [ ("", []);
    (home_html, [a "/a" "A"]);
    (a_html, [a "/b#x" "x"; a "/b#y" "y"]);
    (b_html, [p "b"]);
    (blank_html, [el "p" []]);
    (main_html, [el "body" [p "outside"; el "main" [p "inside"]]]);
    (intro_html, [el "h1" [Text "Intro"]; p "a"; p "b"; el "h1" [Text "Details"]; p "c"]);
    (foo_html, [a "/foo" "foo"]) ].

Definition site : list (string * string) :=
  [ ("https://h.org/", home_html);
    ("https://h.org/a", a_html);
    ("https://h.org/b#x", b_html);
    ("https://h.org/b#y", b_html) ].

Definition blank_site : list (string * string) := [ ("https://h.org/", blank_html) ].

Definition web : Libraries := libs docs site.
Definition blank_web : Libraries := libs docs blank_site.

(** The run on [site] from its home page with room for five pages: the
    state before the loop and after one, two, ... iterations. *)
Definition home : string := "https://h.org/".
Definition web_init : state := State [] ∅ [home; "https://h.org/a"] 1 0 0 [home].
Definition web_state (n : nat) : state := Nat.iter n (loop_body (L := web) 5) web_init.

End Fixture.

(** ** The helpers of the notebook for pages an LLM extracted:
    [chunk_text] and [process_page] *)

(** A Python value read from a page dictionary: a [str], or another
    object, of which the code uses the truth value and what [str(..)]
    gives ([None] when it raises). *)
Inductive pyval : Type :=
| VStr (s : string)
| VObj (truth : bool) (str : option string).

(** A page: the values under the keys ["title"], ["url"] and ["content"],
    [None] for a missing key. *)
Record page : Type := Page {
  pg_title : option pyval;
  pg_url : option pyval;
  pg_content : option pyval
}.

(** One entry [process_page] builds. *)
Record chunk_entry : Type := ChunkEntry {
  chunk_id : string;
  chunk_title : pyval;
  chunk_url : pyval;
  chunk_text_of : string
}.

Module Chunks.
Section Defs.
Import PyStr Soup.

Context {L : Libraries}.

(** [range(start, stop, step)] for a positive [step]; [fuel] bounds the
    number of elements. *)
Fixpoint range_from (fuel start stop step : nat) : list nat :=
  match fuel with
  | 0 => []
  | S fuel' =>
      if Nat.ltb start stop then start :: range_from fuel' (start + step) stop step
      else []
  end.

(** The list comprehension of [chunk_text] for a positive step [n]:
    [" ".join(words[i:i + n]) for i in range(0, len(words), n)]. *)
Definition chunks_of (words : list string) (n : nat) : list string :=
  map (λ i, join " " (take n (drop i words)))
    (range_from (List.length words) 0 (List.length words) n).

(** [chunk_text(text, chunk_size)] for any integer [chunk_size]: [None]
    for the [ValueError] that [range] raises on a step of zero; with a
    negative step [range(0, len(words), chunk_size)] is empty, so there
    is no chunk. *)
Definition chunk_text (text : string) (chunk_size : Z) : option (list string) :=
  let words := split text in
  match chunk_size with
  | Z0 => None
  | Zneg _ => Some []
  | Zpos n => Some (chunks_of words (Pos.to_nat n))
  end.

(** Truth value of a Python value. *)
Definition truth (v : pyval) : bool :=
  match v with
  | VStr s => negb (is_empty s)
  | VObj b _ => b
  end.

(** [str.lower] on one character (code points below 256). *)
Definition lower_char (c : ascii) : ascii :=
  let n := nat_of_ascii c in
  if (Nat.leb 65 n && Nat.leb n 90)
     || (Nat.leb 192 n && Nat.leb n 222 && negb (Nat.eqb n 215))
  then ascii_of_nat (n + 32)
  else c.

Fixpoint lower (s : string) : string :=
  match s with
  | EmptyString => EmptyString
  | String c r => String (lower_char c) (lower r)
  end.

(** [needle in hay] for strings. *)
Fixpoint is_sub (needle hay : string) : bool :=
  String.prefix needle hay
  || match hay with
     | EmptyString => false
     | String _ r => is_sub needle r
     end.

(** The content as a string: [content] itself, [str(content)] for another
    object, [""] when that raises. *)
Definition content_string (content : pyval) : string :=
  match content with
  | VStr s => s
  | VObj _ (Some s) => s
  | VObj _ None => ""
  end.

(** The test for content that looks like HTML. *)
Definition looks_like_html (content : string) : bool :=
  is_sub "<" content && is_sub ">" content
  && (is_sub "<html" (lower content) || is_sub "<body" (lower content)).

(** [clean_text]: the text of the parsed content when it looks like
    HTML and the parser does not raise, the content itself otherwise. *)
Definition clean_text (content : string) : string :=
  if looks_like_html content then
    match BeautifulSoup content with
    | Some contents => get_text " " (Element "[document]" [] contents)
    | None => content
    end
  else content.

(** The entries for the chunks, numbered from [counter]. *)
Fixpoint chunk_entries (title url : pyval) (counter : nat) (chunks : list string) : list chunk_entry :=
  match chunks with
  | [] => []
  | chunk :: r =>
      ChunkEntry (pretty counter) title url chunk :: chunk_entries title url (S counter) r
  end.

(** [process_page(page, counter)] for a counter that is not negative:
    the entries and the counter after them.  [chunk_text] is called with
    the chunk size 300, on which it does not raise. *)
Definition process_page (pg : page) (counter : nat) : list chunk_entry * nat :=
  let title := default (VStr "") (pg_title pg) in
  let url := default (VStr "") (pg_url pg) in
  let content := content_string (default (VStr "") (pg_content pg)) in
  let clean := clean_text content in
  let chunks := default [] (chunk_text clean 300%Z) in
  if is_empty_list chunks && (truth title || truth url) then
    ([ChunkEntry (pretty counter) title url
         (if is_empty clean then "No content extracted" else clean)],
     S counter)
  else
    (chunk_entries title url counter chunks, counter + List.length chunks).

End Defs.
End Chunks.

(** ** The first notebook: the links of the catalog page *)

(** One link: the dictionary with the keys ['text'] and ['href']. *)
Record link : Type := Link { link_text : string; link_href : string }.

Module Catalog.
Section Defs.
Import PyStr Soup.

Context {L : Libraries}.

(** [tag.text]: the strings below the node, as they are, one after the
    other. *)
Fixpoint text_of (n : node) : string :=
  match n with
  | Text s => s
  | Comment _ => EmptyString
  | Element _ _ cs =>
      (fix go (l : list node) : string :=
         match l with
         | [] => EmptyString
         | c :: r => text_of c +:+ go r
         end) cs
  end.

(** [extract_links(html_content)] of the first notebook; [None] when the
    parser raises. *)
Definition extract_links (html_content : string) : option (list link) :=
  contents ← BeautifulSoup html_content;
  Some (omap (λ a_tag, Link (strip (text_of a_tag)) <$> attr a_tag "href")
          (find_all (name_in ["a"]) (Element "[document]" [] contents))).

(** [s.rstrip('/')] *)
Fixpoint rstrip_slash (s : string) : string :=
  match s with
  | EmptyString => EmptyString
  | String c r =>
      let r' := rstrip_slash r in
      if Ascii.eqb c "/" && is_empty r' then EmptyString else String c r'
  end.

(** The body of the loop of [fix_relative_urls] on one link. *)
Definition fix_link (base_url : string) (l : link) : link :=
  let href := link_href l in
  if negb (is_empty href)
     && negb (startswith href "http://" || startswith href "https://")
  then
    if startswith href "/" then Link (link_text l) (rstrip_slash base_url +:+ href)
    else Link (link_text l) (rstrip_slash base_url +:+ "/" +:+ href)
  else l.

(** [fix_relative_urls(links, base_url)]: the list after the loop has
    rewritten its dictionaries. *)
Definition fix_relative_urls (links : list link) (base_url : string) : list link :=
  map (fix_link base_url) links.

(** The filter for course and program links. *)
Definition course_links (links : list link) : list link :=
  List.filter
    (λ l, Chunks.is_sub "preview_course" (link_href l)
          || Chunks.is_sub "preview_program" (link_href l))
    links.

End Defs.
End Catalog.

(** ** Helpers for the proofs about trees *)

Module SoupMore.
Import PyStr Soup.

(** [decompose_all] on the children of an element. *)
Fixpoint decompose_list (names : list string) (l : list node) : list node :=
  match l with
  | [] => []
  | c :: r =>
      if name_in names c then decompose_list names r
      else decompose_all names c :: decompose_list names r
  end.

End SoupMore.

(** ** Helpers for the proofs about words *)

Module WordsMore.
Import PyStr.

(** No character is white space. *)
Definition nospace (cs : list ascii) : bool := forallb (λ c, negb (isspace c)) cs.

(** A word, as [str.split()] gives them: not empty, no white space. *)
Definition is_word (w : string) : bool :=
  negb (is_empty w) && nospace (list_ascii_of_string w).

End WordsMore.

(** ** More fixtures *)

Module Fixture2.
Import Fixture.

(** A site where nothing can be fetched. *)
Definition dead_web : Libraries := libs docs [].

(** Three [div] elements: one with the id [main] and a long text, two
    with the id [content]. *)
Definition div (id text : string) : node := Element "div" [("id", id)] [Text text].
Definition divs : node :=
  Element "[document]" []
    [div "main" "a long text"; div "content" "a"; div "content" "bbb"].

(** Links as the first notebook collects them. *)
Definition catalog_links : list link :=
  [ Link "Courses" "/content.php?catoid=34";
    Link "Program" "preview_program.php?poid=1";
    Link "" "";
    Link "Clark" "https://www.clarku.edu/" ].

Definition catalog_base : string := "https://catalog.clarku.edu/".

End Fixture2.

(** ** A header followed by an empty comment *)

Module Fixture3.
Import Fixture.

(** Inside [pre] the parser keeps strings as they are, so the empty
    comment is an empty string node between the header and the text. *)
Definition pre_html : string := "<pre><h3>x</h3><!---->y</pre>".
Definition pre_doc : list node := [el "pre" [el "h3" [Text "x"]; Comment ""; Text "y"]].
Definition pre_web : Libraries := libs [(pre_html, pre_doc)] [].

End Fixture3.

(** * Properties *)

(** ** Reading back what [repr] writes *)

Module ReprEval.
Import PyStr PyRepr PyEval.

#[local] Arguments String.append : simpl nomatch.

Lemma append_assoc (a b c : string) : (a +:+ b) +:+ c = a +:+ (b +:+ c).
Proof. induction a as [|x a IH]; simpl; [reflexivity | now rewrite IH]. Qed.

Lemma expect_append (p s : string) : expect p (p +:+ s) = Some s.
Proof.
  induction p as [|a p IH]; simpl; [reflexivity |].
  now rewrite Ascii.eqb_refl.
Qed.

(** One character: the reader undoes [repr_char], whichever of the two
    quotes encloses the literal. *)
Lemma read_repr_char (q c : ascii) (tail : string) :
  q = squote ∨ q = dquote →
  read_chars q (repr_char q c +:+ tail) = push c (read_chars q tail).
Proof.
  intros [-> | ->];
    destruct c as [[] [] [] [] [] [] [] []]; reflexivity.
Qed.

Lemma read_repr_chars (q : ascii) (s rest : string) :
  q = squote ∨ q = dquote →
  read_chars q (repr_chars q s +:+ String q rest) = Some (s, rest).
Proof.
  intros Hq. induction s as [|c s IH].
  - simpl. now rewrite Ascii.eqb_refl.
  - cbn [repr_chars]. rewrite append_assoc, read_repr_char, IH by assumption.
    reflexivity.
Qed.

Lemma quote_for_cases (s : string) : quote_for s = squote ∨ quote_for s = dquote.
Proof. unfold quote_for. destruct (_ && _); auto. Qed.

Lemma read_repr_str (s rest : string) :
  read_str (repr_str s +:+ rest) = Some (s, rest).
Proof.
  unfold repr_str. pose proof (quote_for_cases s) as Hq.
  set (q := quote_for s) in *. simpl.
  assert (Ascii.eqb q squote || Ascii.eqb q dquote = true) as ->
    by (destruct Hq as [-> | ->]; reflexivity).
  rewrite append_assoc. simpl. now apply read_repr_chars.
Qed.

Lemma read_repr_section (x : section) (rest : string) :
  read_section (repr_section x +:+ rest) = Some (x, rest).
Proof.
  destruct x as [[h|] t]; unfold repr_section, read_section; cbn [header text].
  - rewrite !append_assoc, expect_append, read_repr_str.
    cbn [mbind option_bind]. rewrite expect_append.
    cbn [mbind option_bind]. rewrite read_repr_str.
    reflexivity.
  - rewrite !append_assoc.
    change (expect "{'header': " ("{'text': " +:+ ?s)) with (@None string).
    rewrite expect_append.
    cbn [mbind option_bind]. rewrite read_repr_str.
    reflexivity.
Qed.

Lemma repr_section_head (x : section) : ∃ r, repr_section x = String "{" r.
Proof. destruct x as [[h|] t]; unfold repr_section; cbn [header]; eexists; reflexivity. Qed.

Lemma join_cons2 (sep a b : string) (l : list string) :
  join sep (a :: b :: l) = a +:+ sep +:+ join sep (b :: l).
Proof. reflexivity. Qed.

Lemma read_repr_sections (xs : list section) :
  ∀ (x : section) (fuel : nat) (rest : string),
    List.length xs < fuel →
    read_sections fuel (join ", " (map repr_section (x :: xs)) +:+ String "]" rest)
    = Some (x :: xs, rest).
Proof.
  induction xs as [|y ys IH]; intros x fuel rest Hfuel;
    (destruct fuel as [|fuel]; [simpl in Hfuel; lia |]).
  - cbn [map join read_sections]. rewrite read_repr_section. reflexivity.
  - cbn [map]. rewrite join_cons2. cbn [read_sections].
    rewrite !append_assoc, read_repr_section.
    cbn [mbind option_bind].
    change (expect "]" (", " +:+ ?s)) with (@None string).
    rewrite expect_append. cbn [mbind option_bind].
    change (repr_section y :: map repr_section ys) with (map repr_section (y :: ys)).
    rewrite IH by (simpl in Hfuel; lia). reflexivity.
Qed.

Lemma length_append (a b : string) :
  String.length (a +:+ b) = String.length a + String.length b.
Proof. induction a as [|c a IH]; simpl; [reflexivity | now rewrite IH]. Qed.

Lemma length_join_sections (xs : list section) :
  (List.length xs ≤ String.length (join ", " (map repr_section xs)))%nat.
Proof.
  induction xs as [|x [|y ys] IH].
  - simpl. lia.
  - destruct (repr_section_head x) as [r Hr]. cbn [map join]. rewrite Hr. simpl. lia.
  - cbn [map]. rewrite join_cons2, !length_append.
    destruct (repr_section_head x) as [r Hr]. rewrite Hr.
    cbn [map] in IH. simpl List.length in *. simpl String.length at 1. lia.
Qed.

(** [eval(str(content_dict))] gives the sections back. *)
Lemma eval_str_content (sections : list section) :
  eval_content (str_content sections) = Some sections.
Proof.
  unfold str_content, eval_content. rewrite expect_append. cbn [mbind option_bind].
  destruct sections as [|x xs]; [reflexivity |].
  destruct (repr_section_head x) as [r Hr].
  assert (expect "]" (join ", " (map repr_section (x :: xs)) +:+ "]}") = None) as ->.
  { destruct xs; cbn [map]; [cbn [join] | rewrite join_cons2]; rewrite Hr; reflexivity. }
  rewrite read_repr_sections; [reflexivity |].
  rewrite length_append.
  pose proof (length_join_sections (x :: xs)) as Hlen.
  simpl List.length in Hlen. simpl String.length at 2. lia.
Qed.

(** [repr] on a few strings: a newline, NEL, a backslash, both quotes. *)
Example repr_str_examples :
  repr_str (String (chr 10) "") = "'\n'"
  ∧ repr_str (String (chr 133) "") = "'\x85'"
  ∧ repr_str "a\b" = "'a\\b'"
  ∧ repr_str "it's" = String dquote "it's" +:+ String dquote ""
  ∧ repr_str ("it's " +:+ String dquote "x") = "'it\'s " +:+ String dquote "x'".
Proof. repeat split; reflexivity. Qed.

Example str_content_example :
  str_content [Section_ (Some "Intro") "a b"; Section_ None ""]
  = "{'sections': [{'header': 'Intro', 'text': 'a b'}, {'text': ''}]}".
Proof. reflexivity. Qed.

Example split_strip_examples :
  split "  main-content  wide " = ["main-content"; "wide"]
  ∧ strip "  a b  " = "a b"
  ∧ split_head "#" "https://h.org/b#x" = "https://h.org/b"
  ∧ split_head "#" "https://h.org/b" = "https://h.org/b".
Proof. repeat split; reflexivity. Qed.

(** The text is never empty. *)
Lemma str_content_not_empty (sections : list section) :
  is_empty (str_content sections) = false.
Proof. reflexivity. Qed.

End ReprEval.

(** ** The document tree *)

Module SoupFacts.
Import PyStr Soup.

(** Induction on a tree with the hypothesis for every child. *)
Lemma node_forall_ind (P : node → Prop) :
  (∀ s, P (Text s)) →
  (∀ s, P (Comment s)) →
  (∀ nm attrs cs, Forall P cs → P (Element nm attrs cs)) →
  ∀ n, P n.
Proof.
  intros HT HC HE. fix IH 1. intros [s | s | nm attrs cs]; [apply HT | apply HC |].
  apply HE. induction cs as [|c cs IHcs]; constructor; [apply IH | exact IHcs].
Qed.

Lemma descendants_Element (nm : string) (attrs : list (string * string)) (cs : list node) :
  descendants (Element nm attrs cs) = descendants_list cs.
Proof. induction cs as [|c cs IH]; [reflexivity |]. simpl in *. now rewrite IH. Qed.

Lemma solid_Element (nm : string) (attrs : list (string * string)) (cs : list node) :
  solid (Element nm attrs cs) = solid_list cs.
Proof. induction cs as [|c cs IH]; [reflexivity |]. simpl in *. now rewrite IH. Qed.

Lemma solid_truthy (n : node) : solid n = true → truthy_node n = true.
Proof. destruct n; auto. Qed.

(** In a tree without empty string nodes, the siblings after any
    descendant have no empty string node either. *)
Lemma solid_siblings (n : node) :
  solid n = true →
  ∀ h siblings, (h, siblings) ∈ descendants n → solid_list siblings = true.
Proof.
  induction n as [s | s | nm attrs cs IH] using node_forall_ind;
    intros Hsolid h siblings Hin; [inversion Hin .. |].
  rewrite descendants_Element in Hin. rewrite solid_Element in Hsolid.
  induction cs as [|c cs IHcs]; [inversion Hin |].
  cbn [descendants_list solid_list] in Hin, Hsolid.
  apply andb_prop in Hsolid as [Hc Hcs].
  apply Forall_cons in IH as [IHc IHrest].
  apply elem_of_cons in Hin as [Heq | Hin].
  - injection Heq as -> ->. exact Hcs.
  - apply elem_of_app in Hin as [Hin | Hin]; [apply (IHc Hc h), Hin | apply IHcs; assumption].
Qed.

End SoupFacts.

(** ** Extraction *)

Section Extraction.
Import PyStr PyRepr PyEval Soup SoupFacts.

Context {L : Libraries}.

(** *** Sections *)

Lemma content_parts_solid (siblings : list node) :
  solid_list siblings = true →
  content_parts siblings
  = List.filter (λ t, negb (is_empty t)) (map (get_text "") (until_heading siblings)).
Proof.
  induction siblings as [|sib r IH]; intros Hsolid; [reflexivity |].
  cbn [solid_list] in Hsolid. apply andb_prop in Hsolid as [Hsib Hr].
  cbn [content_parts until_heading]. rewrite (solid_truthy sib Hsib). cbn [andb].
  destruct (name_in heading_tags sib); [reflexivity |].
  cbn [negb map List.filter]. rewrite (IH Hr).
  destruct (is_empty (get_text "" sib)); reflexivity.
Qed.

Lemma header_section_solid (h : node * list node) :
  solid_list (snd h) = true →
  header_section h
  = if negb (is_empty (get_text "" (fst h)))
    then [Section_ (Some (get_text "" (fst h))) (section_text (snd h))]
    else [].
Proof.
  intros Hsolid. unfold header_section, section_text.
  rewrite (content_parts_solid _ Hsolid).
  destruct (is_empty (get_text "" (fst h))); reflexivity.
Qed.

Lemma flat_map_filter_singleton {A B : Type} (f : A → list B) (g : A → B)
    (p q : A → bool) (l : list A) :
  (∀ x, x ∈ l → p x = true → f x = if q x then [g x] else []) →
  flat_map f (List.filter p l) = map g (List.filter (λ x, p x && q x) l).
Proof.
  induction l as [|x l IH]; intros Hf; [reflexivity |].
  cbn [List.filter]. destruct (p x) eqn:Hp; cbn [andb].
  - cbn [flat_map]. rewrite (Hf x) by (assumption || left).
    rewrite IH by (intros y Hy; apply Hf; now right).
    destruct (q x); reflexivity.
  - apply IH. intros y Hy. apply Hf. now right.
Qed.

(** The text of a section made from a header is never empty. *)
Lemma header_sections_text (main_content : node) (x : section) :
  x ∈ header_sections main_content → is_empty (text x) = false.
Proof.
  unfold header_sections. intros Hx.
  apply list_elem_of_In, in_flat_map in Hx as (h & _ & Hx).
  unfold header_section in Hx.
  destruct (is_empty (get_text "" (fst h))); [inversion Hx |].
  destruct Hx as [<- | []]. cbn [text].
  destruct (is_empty (join " " (content_parts (snd h)))) eqn:He; [reflexivity | exact He].
Qed.

Lemma header_sections_has_text (main_content : node) :
  header_sections main_content ≠ [] → has_text (header_sections main_content) = true.
Proof.
  pose proof (header_sections_text main_content) as Htext.
  destruct (header_sections main_content) as [|x xs]; [congruence |]. intros _.
  unfold has_text. cbn [existsb]. rewrite (Htext x) by left. reflexivity.
Qed.

Lemma page_sections_not_nil (main_content : node) : page_sections main_content ≠ [].
Proof.
  unfold page_sections.
  destruct (header_sections main_content) as [|x xs] eqn:Hs; cbn [is_empty_list orb app].
  - discriminate.
  - destruct (negb _); discriminate.
Qed.


Lemma header_sections_solid (main_content : node) :
  solid main_content = true →
  header_sections main_content
  = map (λ h, Section_ (Some (get_text "" (fst h))) (section_text (snd h)))
      (List.filter
         (λ h, name_in heading_tags (fst h) && negb (is_empty (get_text "" (fst h))))
         (descendants main_content)).
Proof.
  intros Hsolid. unfold header_sections.
  apply (flat_map_filter_singleton header_section
           (λ h, Section_ (Some (get_text "" (fst h))) (section_text (snd h)))
           (λ h, name_in heading_tags (fst h))
           (λ h, negb (is_empty (get_text "" (fst h))))).
  intros [h siblings] Hin _. apply header_section_solid.
  apply (solid_siblings main_content Hsolid h siblings Hin).
Qed.

(** Header sections on a region without empty string nodes.  For a
    document that parses and whose selected region has no empty string
    node: when the region has a header (h1 to h4) whose
    text is not empty, the content [extract_content] returns is the text
    of one section for each such header, in document order, and nothing
    else; the section has the header's text, and for its text the texts
    (those that are not empty) of the siblings after the header up to the
    next sibling that is a header, joined by one space, or the marker
    when there is no such text. *)
Theorem heading_sections (html url : string) (contents : list node) :
  let soup := soup_of contents in
  let region := select_main_content (decompose_all noise_tags soup) in
  let headers :=
    List.filter
      (λ h, name_in heading_tags (fst h) && negb (is_empty (get_text "" (fst h))))
      (descendants region) in
  is_empty html = false →
  BeautifulSoup html = Some contents →
  solid region = true →
  headers ≠ [] →
  extract_content html url
  = Returned
      (Some (page_title soup),
       Some (str_content
               (map (λ h, Section_ (Some (get_text "" (fst h))) (section_text (snd h)))
                  headers))).
Proof.
  intros soup region headers Hne Hparse Hsolid Hheaders.
  unfold extract_content. rewrite Hne, Hparse. fold soup. fold region.
  do 3 f_equal. unfold page_sections.
  rewrite (header_sections_has_text region).
  - rewrite (header_sections_solid region Hsolid). fold headers.
    destruct headers; [congruence | reflexivity].
  - rewrite (header_sections_solid region Hsolid). fold headers.
    destruct headers; [congruence | discriminate].
Qed.

(** C10, as the code has it.  For a text that is not the empty string
    and parses, [extract_content] returns a title and the text of a list
    of sections that is not empty; the text returned is not empty, and
    [eval] reads it back to that list.  (On the empty string the guard
    [if not html] returns [(None, None)], as on [None].) *)
Theorem extract_content_nonempty (html url : string) (contents : list node) :
  is_empty html = false →
  BeautifulSoup html = Some contents →
  ∃ title sections,
    extract_content html url = Returned (Some title, Some (str_content sections))
    ∧ sections ≠ []
    ∧ is_empty (str_content sections) = false
    ∧ eval_content (str_content sections) = Some sections.
Proof.
  intros Hne Hparse. unfold extract_content. rewrite Hne, Hparse.
  eexists _, _. split; [reflexivity |].
  split; [apply page_sections_not_nil |].
  split; [reflexivity | apply ReprEval.eval_str_content].
Qed.

(** *** The content region *)

Lemma max_by_elem {A : Type} (key : A → nat) (l : list A) :
  ∀ best, max_by key best l ∈ best :: l.
Proof.
  induction l as [|x l IH]; intros best; cbn [max_by]; [left |].
  destruct (Nat.ltb (key best) (key x)).
  - right. apply IH.
  - specialize (IH best). apply elem_of_cons in IH as [-> | IH]; [left | right; now right].
Qed.

Lemma try_values_name (soup : node) (tag attr_name : string) (values : list string) (e : node) :
  try_values soup tag attr_name values = Some e → name e = Some tag.
Proof.
  induction values as [|value vs IH]; cbn [try_values]; [discriminate |].
  destruct (find_all _ soup) as [|e0 es] eqn:Hfind; [exact IH |].
  intros [= <-].
  pose proof (max_by_elem text_length es e0) as Hin.
  rewrite <- Hfind in Hin. unfold find_all in Hin.
  apply list_elem_of_In, filter_In in Hin as [_ Hp].
  apply andb_prop in Hp as [Hname _]. unfold name_in in Hname.
  destruct (name (max_by text_length e0 es)) as [nm|]; [| discriminate].
  apply bool_decide_eq_true in Hname. apply list_elem_of_singleton in Hname. now subst.
Qed.

(** The loop over the selectors can only stop at a [div]: the selectors
    for [main] and [article] have an empty [attrs], and the search is
    made inside the loop over [attrs]. *)
Lemma try_selectors_div (soup e : node) :
  try_selectors soup main_content_tags = Some e → name e = Some "div".
Proof.
  unfold main_content_tags. cbn [try_selectors try_attrs].
  destruct (try_values soup "div" "id" _) as [e1|] eqn:H1.
  - intros [= <-]. apply (try_values_name _ _ _ _ _ H1).
  - destruct (try_values soup "div" "class" _) as [e2|] eqn:H2; [| discriminate].
    intros [= <-]. apply (try_values_name _ _ _ _ _ H2).
Qed.

(** *** Links *)

Lemma resolve_href_cases (domain href u : string) :
  resolve_href domain href = Some u ↔
  (startswith href "/" = true ∧ u = "https://" +:+ domain +:+ href)
  ∨ (startswith href "/" = false
     ∧ startswith href "http://" || startswith href "https://" = true
     ∧ u = href).
Proof.
  unfold resolve_href.
  destruct (startswith href "/");
    [| destruct (startswith href "http://" || startswith href "https://")];
    cbn [negb]; split; intros H; simplify_eq; auto;
    destruct H as [[? ?] | (? & ? & ?)]; congruence.
Qed.

Lemma same_domain_links_elem (domain : string) (hrefs : list string) :
  (∀ href u, href ∈ hrefs → resolve_href domain href = Some u → is_Some (get_domain u)) →
  ∃ links,
    same_domain_links domain hrefs = Some links
    ∧ ∀ u, u ∈ links ↔
           ∃ href, href ∈ hrefs ∧ resolve_href domain href = Some u
                   ∧ get_domain u = Some domain.
Proof.
  induction hrefs as [|href r IH]; intros Hok.
  - exists []. split; [reflexivity |]. intros u. split; [inversion 1 |].
    intros (href & Hin & _). inversion Hin.
  - destruct IH as (links & Hlinks & Helem); [intros h u Hh; apply Hok; now right |].
    cbn [same_domain_links]. destruct (resolve_href domain href) as [href'|] eqn:Hres.
    + destruct (Hok href href') as [d Hd]; [left | assumption |].
      rewrite Hd, Hlinks. cbn [mbind option_bind].
      eexists. split; [reflexivity |]. intros u.
      destruct (String.eqb_spec d domain) as [-> | Hne].
      * rewrite elem_of_cons, Helem. split.
        -- intros [-> | (h & Hh & Hr & Hdom)].
           ++ exists href. repeat split; [left | assumption ..].
           ++ exists h. repeat split; [right | ..]; assumption.
        -- intros (h & [-> | Hh]%elem_of_cons & Hr & Hdom).
           ++ left. congruence.
           ++ right. eauto.
      * rewrite Helem. split.
        -- intros (h & Hh & Hr & Hdom). exists h. repeat split; [right | ..]; assumption.
        -- intros (h & [-> | Hh]%elem_of_cons & Hr & Hdom); [congruence | eauto].
    + exists links. split; [assumption |]. intros u. rewrite Helem. split.
      * intros (h & Hh & Hr & Hdom). exists h. repeat split; [right | ..]; assumption.
      * intros (h & [-> | Hh]%elem_of_cons & Hr & Hdom); [congruence | eauto].
Qed.

(** C5, as the code has it.  For a document that parses and a base URL
    and links [urlparse] accepts, [extract_links] returns a list without
    repetition whose elements are the URLs obtained from the [href] of
    an anchor: ["https://"], the domain of the base URL and the [href]
    when the [href] starts with [/], whatever the scheme of the base URL
    is; the [href] itself when it starts with ["http://"] or
    ["https://"]; nothing otherwise; kept when the domain of the URL
    obtained is the domain of the base URL. *)
Theorem extract_links_post `{!SetOrder L} (html base_url domain : string)
    (contents : list node) :
  BeautifulSoup html = Some contents →
  get_domain base_url = Some domain →
  (∀ href u, href ∈ anchors_href (soup_of contents) →
             resolve_href domain href = Some u → is_Some (get_domain u)) →
  ∃ links,
    extract_links html base_url = Some links
    ∧ NoDup links
    ∧ ∀ u, u ∈ links ↔
           ∃ href,
             href ∈ anchors_href (soup_of contents)
             ∧ get_domain u = Some domain
             ∧ ((startswith href "/" = true ∧ u = "https://" +:+ domain +:+ href)
                ∨ (startswith href "/" = false
                   ∧ startswith href "http://" || startswith href "https://" = true
                   ∧ u = href)).
Proof.
  intros Hparse Hdomain Hok.
  destruct (same_domain_links_elem domain _ Hok) as (links & Hlinks & Helem).
  exists (list_set links). unfold extract_links.
  rewrite Hparse, Hdomain. cbn [mbind option_bind]. rewrite Hlinks.
  split; [reflexivity |]. split; [apply list_set_NoDup |].
  intros u. rewrite list_set_elem, Helem.
  split; intros (href & Hin & H1 & H2); exists href.
  - apply resolve_href_cases in H1. auto.
  - rewrite resolve_href_cases. auto.
Qed.

End Extraction.

(** ** The crawl loop *)

Section Crawl.
Import PyStr PyRepr PyEval Soup.

#[local] Open Scope nat_scope.

Context {L : Libraries}.
Variable max_urls : nat.
Variable root_url : string.

#[local] Abbreviation loop_body := (loop_body max_urls).
#[local] Abbreviation loop_cond := (loop_cond max_urls).
#[local] Abbreviation discover := (discover max_urls).
#[local] Abbreviation main_init := (main_init root_url).
#[local] Abbreviation reachable := (reachable max_urls root_url).
#[local] Abbreviation while := (while max_urls).
#[local] Abbreviation main := (main max_urls root_url).
#[local] Abbreviation canon := (split_head "#").

(** *** What one iteration leaves alone *)

Lemma record_page_frame (u : string) (t c : option string) (s : state) :
  visited_urls (record_page u t c s) = visited_urls s
  ∧ urls_to_visit (record_page u t c s) = urls_to_visit s
  ∧ requests (record_page u t c s) = requests s.
Proof.
  unfold record_page.
  repeat match goal with
         | |- context [if ?b then _ else _] => destruct b
         | |- context [match ?o with Some _ => _ | None => _ end] => destruct o
         end; auto.
Qed.

Lemma discover_frame (html u : string) (s : state) :
  visited_urls (discover html u s) = visited_urls s
  ∧ all_entries (discover html u s) = all_entries s
  ∧ counter (discover html u s) = counter s
  ∧ skipped_urls (discover html u s) = skipped_urls s
  ∧ empty_content_urls (discover html u s) = empty_content_urls s
  ∧ requests (discover html u s) = requests s.
Proof.
  unfold Clarkie.discover.
  destruct (Nat.ltb _ _); [destruct (extract_links _ _) |]; auto 10.
Qed.

Lemma discover_queue (html u : string) (s : state) :
  ∃ links,
    urls_to_visit (discover html u s)
    = fold_left (enqueue (visited_urls s)) links (urls_to_visit s).
Proof.
  unfold Clarkie.discover.
  destruct (Nat.ltb _ _); [destruct (extract_links _ _) as [links|] |].
  - exists links. reflexivity.
  - exists []. reflexivity.
  - exists []. reflexivity.
Qed.

(** *** One iteration: either the URL is passed over, or it is visited,
    fetched, and links may be queued. *)
Lemma loop_body_cases (s : state) (u : string) (rest : list string) :
  urls_to_visit s = u :: rest →
  ((canon u ∈ visited_urls s ∨ u ∈ visited_urls s) ∧ loop_body s = set_queue rest s)
  ∨ ((canon u ∉ visited_urls s)
     ∧ visited_urls (loop_body s) = {[canon u]} ∪ visited_urls s
     ∧ requests (loop_body s) = requests s ++ [u]
     ∧ ∃ links,
         urls_to_visit (loop_body s)
         = fold_left (enqueue ({[canon u]} ∪ visited_urls s)) links rest).
Proof.
  intros Hq. unfold Clarkie.loop_body. rewrite Hq.
  cbn [visited_urls set_queue].
  case_bool_decide as Hu; [left; auto |].
  case_bool_decide as Hc; [left; auto |].
  right. split; [assumption |].
  set (s1 := log_request u (add_visited (canon u) (set_queue rest s))).
  assert (visited_urls s1 = {[canon u]} ∪ visited_urls s
          ∧ requests s1 = requests s ++ [u] ∧ urls_to_visit s1 = rest) as (Hv & Hr & Hq1)
    by auto.
  assert (visited_urls (skip s1) = {[canon u]} ∪ visited_urls s
          ∧ requests (skip s1) = requests s ++ [u]
          ∧ ∃ links, urls_to_visit (skip s1)
                     = fold_left (enqueue ({[canon u]} ∪ visited_urls s)) links rest) as Hskip
    by (repeat split; [assumption .. | exists []; assumption]).
  destruct (fetch_url _ u) as [html|]; [| exact Hskip].
  destruct (is_empty html); [exact Hskip |].
  destruct (extract_content html u) as [|[title content]]; [exact Hskip |].
  destruct (record_page_frame u title content s1) as (Hv' & Hq' & Hr').
  destruct (discover_frame html u (record_page u title content s1))
    as (Hv'' & _ & _ & _ & _ & Hr'').
  destruct (discover_queue html u (record_page u title content s1)) as [links Hl].
  rewrite Hv'', Hr'', Hv', Hr'. repeat split; [assumption .. |].
  exists links. rewrite Hl, Hv', Hq', Hv, Hq1. reflexivity.
Qed.

Lemma loop_cond_true (s : state) :
  loop_cond s = true →
  (∃ u rest, urls_to_visit s = u :: rest) ∧ size (visited_urls s) < max_urls.
Proof.
  unfold Clarkie.loop_cond. intros H. apply andb_prop in H as [Hq Hn].
  apply Nat.ltb_lt in Hn. split; [| assumption].
  destruct (urls_to_visit s) as [|u rest]; [discriminate | eauto].
Qed.

Lemma main_init_visited (s : state) : main_init = Some s → visited_urls s = ∅.
Proof.
  unfold Clarkie.main_init. intros H.
  destruct (fetch_url 0 root_url) as [html|]; [destruct (is_empty html) |];
    [| destruct (extract_links html root_url) |]; simplify_eq/=; reflexivity.
Qed.

Lemma size_add_new (x : string) (X : gset string) :
  x ∉ X → size ({[x]} ∪ X) = S (size X).
Proof. intros Hx. rewrite size_union by set_solver. now rewrite size_singleton. Qed.

(** The loop grows the visited set. *)
Lemma loop_body_visited_mono (s : state) :
  visited_urls s ⊆ visited_urls (loop_body s).
Proof.
  destruct (urls_to_visit s) as [|u rest] eqn:Hq.
  - unfold Clarkie.loop_body. rewrite Hq. reflexivity.
  - destruct (loop_body_cases s u rest Hq) as [[_ ->] | (_ & -> & _)];
      [reflexivity | set_solver].
Qed.

Lemma reachable_size (s : state) : reachable s → size (visited_urls s) ≤ max_urls.
Proof.
  induction 1 as [s Hinit | s Hs IH Hcond].
  - rewrite (main_init_visited s Hinit), size_empty. lia.
  - apply loop_cond_true in Hcond as [(u & rest & Hq) Hlt].
    destruct (loop_body_cases s u rest Hq) as [[_ ->] | (Hnew & -> & _)].
    + exact IH.
    + rewrite (size_add_new _ _ Hnew). lia.
Qed.

(** The state [main] ends in is one of the states of the loop. *)
Lemma while_reachable (fuel : nat) (s final : state) :
  reachable s → while fuel s = Some final → reachable final ∧ loop_cond final = false.
Proof.
  revert s. induction fuel as [|fuel IH]; intros s Hs Hw; simpl in Hw;
    destruct (loop_cond s) eqn:Hc; try discriminate.
  - injection Hw as <-. auto.
  - apply (IH (loop_body s)); [constructor 2; assumption | assumption].
  - injection Hw as <-. auto.
Qed.

Lemma while_visited_mono (fuel : nat) (s final : state) :
  while fuel s = Some final → visited_urls s ⊆ visited_urls final.
Proof.
  revert s. induction fuel as [|fuel IH]; intros s Hw; simpl in Hw;
    destruct (loop_cond s); try discriminate.
  - injection Hw as <-. reflexivity.
  - etransitivity; [apply loop_body_visited_mono | apply IH, Hw].
  - injection Hw as <-. reflexivity.
Qed.

Lemma main_reachable (fuel : nat) (final : state) :
  main fuel = Some final → reachable final ∧ loop_cond final = false.
Proof.
  unfold Clarkie.main. destruct main_init as [s0|] eqn:Hinit; [| discriminate].
  simpl. apply while_reachable. now constructor 1.
Qed.


(** *** The page of an iteration *)

Lemma extract_content_extracted (html url : string) :
  is_empty html = false →
  extract_content html url
  = match extracted html with
    | Some (title, sections) => Returned (Some title, Some (str_content sections))
    | None => Raised
    end.
Proof.
  intros Hne. unfold extract_content, extracted. rewrite Hne.
  destruct (BeautifulSoup html); reflexivity.
Qed.

(** A page that was fetched and parsed is recorded, whatever its title
    and sections are; only [empty_content_urls] tells a page without
    text from the others. *)
Lemma record_page_extracted (u title : string) (sections : list section) (s : state) :
  record_page u (Some title) (Some (str_content sections)) s
  = add_entry (make_entry (counter s) (Some title) u (str_content sections))
      (if has_text sections then s else flag_empty s).
Proof.
  unfold record_page. rewrite ReprEval.eval_str_content.
  assert (truthy (Some (str_content sections)) = true) as -> by reflexivity.
  rewrite orb_true_r. destruct (has_text sections); reflexivity.
Qed.

Lemma loop_body_entries (s : state) (u : string) (rest : list string) :
  urls_to_visit s = u :: rest →
  (all_entries (loop_body s) = all_entries s ∧ counter (loop_body s) = counter s)
  ∨ (∃ html title sections,
        requests_get (List.length (requests s)) u = Some html
        ∧ is_empty html = false
        ∧ extracted html = Some (title, sections)
        ∧ requests (loop_body s) = requests s ++ [u]
        ∧ all_entries (loop_body s)
          = all_entries s ++ [make_entry (counter s) (Some title) u (str_content sections)]
        ∧ counter (loop_body s) = S (counter s)
        ∧ skipped_urls (loop_body s) = skipped_urls s
        ∧ empty_content_urls (loop_body s)
          = empty_content_urls s + (if has_text sections then 0 else 1)).
Proof.
  intros Hq. unfold Clarkie.loop_body. rewrite Hq.
  cbn [visited_urls set_queue].
  case_bool_decide; [left; auto |].
  case_bool_decide; [left; auto |].
  cbn [requests add_visited].
  set (s1 := log_request u (add_visited (canon u) (set_queue rest s))).
  unfold fetch_url.
  destruct (requests_get _ u) as [html|] eqn:Hget; [| left; auto].
  destruct (is_empty html) eqn:Hne; [left; auto |].
  rewrite (extract_content_extracted html u Hne).
  destruct (extracted html) as [[title sections]|] eqn:Hex; [| left; auto].
  right. exists html, title, sections.
  destruct (discover_frame html u (record_page u (Some title) (Some (str_content sections)) s1))
    as (_ & -> & -> & -> & -> & ->).
  rewrite record_page_extracted.
  repeat split; try assumption; destruct (has_text sections); cbn; auto; lia.
Qed.


(** *** The queue *)

Lemma enqueue_NoDup (v : gset string) (q : list string) (link : string) :
  NoDup q → NoDup (enqueue v q link).
Proof.
  intros Hq. unfold enqueue.
  case_bool_decide as Hv; [case_bool_decide as Hin |]; cbn [andb]; try assumption.
  apply NoDup_app. repeat split; [assumption | | apply NoDup_singleton].
  intros x Hx ->%list_elem_of_singleton. contradiction.
Qed.

Lemma fold_enqueue_NoDup (v : gset string) (links q : list string) :
  NoDup q → NoDup (fold_left (enqueue v) links q).
Proof.
  revert q. induction links as [|l links IH]; intros q Hq; simpl; [assumption |].
  apply IH, enqueue_NoDup, Hq.
Qed.

Lemma fold_enqueue_elem (v : gset string) (links q : list string) (x : string) :
  x ∈ fold_left (enqueue v) links q → x ∈ q ∨ (x ∈ links ∧ (canon x ∉ v) ∧ x ∉ q).
Proof.
  revert q. induction links as [|l links IH]; intros q Hx; simpl in Hx; [auto |].
  destruct (decide (x ∈ q)) as [|Hxq]; [auto |]. right.
  apply IH in Hx as [Hx | (Hx & Hv & _)].
  - unfold enqueue in Hx.
    case_bool_decide as Hv; [case_bool_decide as Hin |]; cbn [andb] in Hx;
      try contradiction.
    apply elem_of_app in Hx as [? | ->%list_elem_of_singleton]; [contradiction |].
    repeat split; [left | assumption ..].
  - repeat split; [right | ..]; assumption.
Qed.

Lemma extract_links_NoDup `{!SetOrder L} (html base : string) (links : list string) :
  extract_links html base = Some links → NoDup links.
Proof.
  unfold extract_links. intros H.
  destruct (BeautifulSoup html); [| discriminate]. cbn [mbind option_bind] in H.
  destruct (get_domain base); [| discriminate]. cbn [mbind option_bind] in H.
  destruct (same_domain_links _ _); [| discriminate]. cbn [mbind option_bind] in H.
  injection H as <-. apply list_set_NoDup.
Qed.

(** The state before the loop. *)
Lemma main_init_state (s : state) :
  main_init = Some s →
  ∃ links,
    s = State [] ∅ (root_url :: links) 1 0 0 [root_url]
    ∧ (links = []
       ∨ ∃ html, requests_get 0 root_url = Some html ∧ is_empty html = false
                 ∧ extract_links html root_url = Some links).
Proof.
  unfold Clarkie.main_init, fetch_url. intros H.
  destruct (requests_get 0 root_url) as [html|] eqn:Hget.
  - destruct (is_empty html) eqn:Hne.
    + injection H as <-. exists []. auto.
    + destruct (extract_links html root_url) as [links|] eqn:Hl; [| discriminate].
      injection H as <-. exists links. split; [reflexivity |]. right. eauto.
  - injection H as <-. exists []. auto.
Qed.

Lemma reachable_queue `{!SetOrder L} (s : state) :
  reachable s →
  NoDup (tail (urls_to_visit s)) ∧ (visited_urls s ≠ ∅ → NoDup (urls_to_visit s)).
Proof.
  induction 1 as [s Hinit | s Hs [IHt IHv] Hcond].
  - apply main_init_state in Hinit as (links & -> & Hlinks). cbn. split; [| congruence].
    destruct Hlinks as [-> | (html & _ & _ & Hl)];
      [apply NoDup_nil_2 | eapply extract_links_NoDup, Hl].
  - apply loop_cond_true in Hcond as [(u & rest & Hq) _].
    rewrite Hq in IHt, IHv. cbn in IHt.
    assert (NoDup (urls_to_visit (loop_body s))) as Hnd.
    { destruct (loop_body_cases s u rest Hq) as [[_ ->] | (_ & _ & _ & links & ->)].
      - assumption.
      - apply fold_enqueue_NoDup, IHt. }
    split; [| auto].
    destruct (urls_to_visit (loop_body s)); [apply NoDup_nil_2 |].
    now apply NoDup_cons in Hnd as [_ ?].
Qed.

(** *** The requests *)

Lemma reachable_requests (s : state) :
  reachable s →
  ∃ R, requests s = root_url :: R
       ∧ NoDup (map canon R)
       ∧ ∀ u, u ∈ R → canon u ∈ visited_urls s.
Proof.
  induction 1 as [s Hinit | s Hs (R & HR & Hnd & Hvis) Hcond].
  - apply main_init_state in Hinit as (links & -> & _). exists [].
    repeat split; [apply NoDup_nil_2 | intros u Hu; inversion Hu].
  - apply loop_cond_true in Hcond as [(u & rest & Hq) _].
    destruct (loop_body_cases s u rest Hq) as [[_ ->] | (Hnew & -> & -> & _)].
    + exists R. auto.
    + exists (R ++ [u]). rewrite HR. repeat split.
      * rewrite map_app. apply NoDup_app. repeat split; [assumption | | apply NoDup_singleton].
        intros x Hx ->%list_elem_of_singleton.
        apply list_elem_of_fmap in Hx as (y & Hy & HyR). apply Hnew. rewrite Hy. auto.
      * intros x [Hx | ->%list_elem_of_singleton]%elem_of_app; set_solver.
Qed.

(** *** The entries *)

Lemma reachable_entries (s : state) :
  reachable s →
  counter s = S (List.length (all_entries s))
  ∧ ∀ i e, all_entries s !! i = Some e → entry_recorded (requests s) i e.
Proof.
  induction 1 as [s Hinit | s Hs [IHc IHe] Hcond].
  - apply main_init_state in Hinit as (links & -> & _). cbn.
    split; [reflexivity | intros i e Hi; destruct i; discriminate].
  - apply loop_cond_true in Hcond as [(u & rest & Hq) _].
    assert (∃ R, requests (loop_body s) = requests s ++ R) as [R HR].
    { destruct (loop_body_cases s u rest Hq) as [[_ ->] | (_ & _ & -> & _)];
        [exists []; symmetry; apply app_nil_r | eauto]. }
    assert (∀ i e, entry_recorded (requests s) i e
                   → entry_recorded (requests (loop_body s)) i e) as Hgrow.
    { intros i e (Hid & n & html & title & sections & Hn & Hrest). split; [assumption |].
      exists n, html, title, sections. split; [| assumption].
      rewrite HR. apply lookup_app_l_Some, Hn. }
    destruct (loop_body_entries s u rest Hq)
      as [[-> ->] | (html & title & sections & Hget & Hne & Hex & Hreq & -> & -> & _)].
    + auto.
    + rewrite length_app. cbn [List.length]. split; [lia |].
      intros i e Hi. apply lookup_app_Some in Hi as [Hi | [Hge Hi]]; [auto |].
      destruct (i - List.length (all_entries s)) as [|k] eqn:Hk; [| destruct k; discriminate].
      injection Hi as <-. assert (i = List.length (all_entries s)) as -> by lia.
      split; [cbn; now rewrite IHc |].
      exists (List.length (requests s)), html, title, sections. cbn [make_entry entry_url entry_title entry_text].
      repeat split; try assumption.
      * rewrite Hreq. apply list_lookup_middle. reflexivity.
      * unfold truthy. cbn. destruct (is_empty title); reflexivity.
Qed.


(** *** Termination *)

Lemma while_terminates (m : nat) :
  ∀ (n : nat) (s : state),
    max_urls - size (visited_urls s) ≤ m →
    List.length (urls_to_visit s) ≤ n →
    ∃ fuel final, while fuel s = Some final.
Proof.
  induction m as [|m IHm]; induction n as [|n IHn]; intros s Hm Hn;
    destruct (loop_cond s) eqn:Hcond;
    try (exists 0, s; simpl; now rewrite Hcond);
    pose proof Hcond as Hc;
    apply loop_cond_true in Hc as [(u & rest & Hq) Hlt];
    try lia; try (rewrite Hq in Hn; simpl in Hn; lia).
  all: assert (∃ fuel final, while fuel (loop_body s) = Some final) as (fuel & final & Hw);
    [| exists (S fuel), final; simpl; now rewrite Hcond].
  all: destruct (loop_body_cases s u rest Hq) as [[_ Hskip] | (Hnew & Hv & _)].
  - rewrite Hskip. apply (IHn (set_queue rest s)); cbn; [lia |].
    rewrite Hq in Hn. simpl in Hn. lia.
  - apply (IHm (List.length (urls_to_visit (loop_body s)))); [| lia].
    rewrite Hv, (size_add_new _ _ Hnew). lia.
Qed.

(** A run that gets to the loop ends. *)
Lemma main_terminates (s0 : state) :
  main_init = Some s0 → ∃ fuel final, main fuel = Some final.
Proof.
  intros Hinit.
  destruct (while_terminates (max_urls - size (visited_urls s0))
              (List.length (urls_to_visit s0)) s0) as (fuel & final & Hw); [lia .. |].
  exists fuel, final. unfold Clarkie.main. rewrite Hinit. exact Hw.
Qed.


(** *** The loop: bound, queue, requests, entries *)

(** C2.  In every state of the loop the visited set has at most
    [max_urls] elements, and an iteration removes nothing from it; the
    state the loop ends in, from there, has at most [max_urls] visited
    URLs too and still has every URL visited before. *)
Theorem visit_bound (s : state) :
  reachable s →
  size (visited_urls s) ≤ max_urls
  ∧ visited_urls s ⊆ visited_urls (loop_body s)
  ∧ ∀ fuel final,
      while fuel s = Some final →
      size (visited_urls final) ≤ max_urls ∧ visited_urls s ⊆ visited_urls final.
Proof.
  intros Hs. split; [apply reachable_size, Hs |].
  split; [apply loop_body_visited_mono |].
  intros fuel final Hw. split.
  - apply reachable_size. eapply while_reachable; eassumption.
  - eapply while_visited_mono, Hw.
Qed.

(** C1, as the code has it.  The test at the [append] is on the visited
    set for the URL without its fragment, but on the queue for the link
    as it is written: a link is put in the queue by an iteration only if
    its fragment-free form is not visited and the link itself is not in
    the queue.  The links of the root page are queued before the loop
    without a test.  So the queue never holds the same string twice,
    apart from the root itself before the first iteration has taken it
    out; two entries may still differ in their fragment only. *)
Theorem queue_dedup `{!SetOrder L} (s : state) :
  reachable s →
  NoDup (tail (urls_to_visit s))
  ∧ (visited_urls s ≠ ∅ → NoDup (urls_to_visit s))
  ∧ ∀ link, link ∈ urls_to_visit (loop_body s) →
            link ∈ tail (urls_to_visit s)
            ∨ ((canon link ∉ visited_urls (loop_body s)) ∧ link ∉ tail (urls_to_visit s)).
Proof.
  intros Hs. destruct (reachable_queue s Hs) as [Ht Hv]. repeat split; try assumption.
  intros link Hlink.
  destruct (urls_to_visit s) as [|u rest] eqn:Hq.
  - unfold Clarkie.loop_body in Hlink. rewrite Hq in Hlink. rewrite Hq in Hlink. inversion Hlink.
  - cbn [tail].
    destruct (loop_body_cases s u rest Hq) as [[_ Hskip] | (_ & Hvis & _ & links & Hl)].
    + rewrite Hskip in Hlink. auto.
    + rewrite Hl in Hlink. rewrite Hvis.
      apply fold_enqueue_elem in Hlink as [? | (_ & ? & ?)]; auto.
Qed.

(** C9, as the code has it.  The root is fetched once before the loop.
    In the loop no two fetches are of URLs with the same fragment-free
    form, so no URL is fetched twice by the loop; with the fetch before
    the loop the root is fetched at most twice in a run, and every other
    URL at most once. *)
Theorem fetch_once (s : state) :
  reachable s →
  ∃ R, requests s = root_url :: R
       ∧ NoDup (map canon R)
       ∧ ∀ u, count_occ string_dec (requests s) u
              ≤ (if decide (u = root_url) then 2 else 1).
Proof.
  intros Hs. destruct (reachable_requests s Hs) as (R & HR & Hnd & _).
  exists R. repeat split; [assumption .. |].
  intros u. rewrite HR.
  assert (NoDup R) as HndR by (eapply NoDup_fmap_1, Hnd).
  apply NoDup_ListNoDup in HndR.
  pose proof (proj1 (NoDup_count_occ string_dec R) HndR u) as Hc.
  cbn [count_occ]. destruct (string_dec root_url u) as [<- | Hne].
  - rewrite decide_True by reflexivity. lia.
  - rewrite decide_False by congruence. lia.
Qed.

(** C8.  The entry number [i] (from 0) of [all_entries] has for ["id"]
    the decimal text of [i + 1]; for ["url"] a URL as it was taken from
    the queue and requested, fragment included; for ["title"] the title
    extracted from the answer to that request, or the placeholder when
    that is empty; and for ["text"] the text [str] writes for the
    sections extracted from that answer, which [eval] reads back to the
    same sections. *)
Theorem record_shape (s : state) (i : nat) (e : entry) :
  reachable s →
  all_entries s !! i = Some e →
  entry_id e = pretty (S i)
  ∧ ∃ n html title sections,
      requests s !! n = Some (entry_url e)
      ∧ requests_get n (entry_url e) = Some html
      ∧ extracted html = Some (title, sections)
      ∧ entry_title e = (if is_empty title then "Untitled Page" else title)
      ∧ entry_text e = str_content sections
      ∧ eval_content (entry_text e) = Some sections.
Proof.
  intros Hs Hi. destruct (reachable_entries s Hs) as [_ He].
  destruct (He i e Hi) as (Hid & n & html & title & sections & Hn & Hget & Hex & Ht & Htext).
  split; [assumption |]. exists n, html, title, sections.
  repeat split; try assumption. rewrite Htext. apply ReprEval.eval_str_content.
Qed.

(** C7, as the code has it.  With [max_urls = 1] and a root page that is
    fetched (both times) and parsed, the run ends after one iteration
    with one entry, the one of the root, and the queue is left holding
    the links found on the root page by the fetch before the loop; it
    is empty only when there were none. *)
Theorem bound_of_one (html0 html1 title : string) (links : list string)
    (sections : list section) (fuel : nat) :
  max_urls = 1 →
  requests_get 0 root_url = Some html0 → is_empty html0 = false →
  extract_links html0 root_url = Some links →
  requests_get 1 root_url = Some html1 → is_empty html1 = false →
  extracted html1 = Some (title, sections) →
  0 < fuel →
  ∃ final,
    main fuel = Some final
    ∧ all_entries final = [make_entry 1 (Some title) root_url (str_content sections)]
    ∧ urls_to_visit final = links.
Proof.
  intros Hmax Hget0 Hne0 Hlinks Hget1 Hne1 Hex Hfuel.
  destruct fuel as [|fuel]; [lia |].
  unfold Clarkie.main, Clarkie.main_init, fetch_url.
  rewrite Hget0, Hne0, Hlinks. cbn [mbind option_bind app].
  set (s0 := State [] ∅ (root_url :: links) 1 0 0 [root_url]).
  assert (loop_cond s0 = true) as Hc0.
  { unfold Clarkie.loop_cond. cbn. rewrite size_empty, Hmax. reflexivity. }
  assert (size ({[canon root_url]} ∪ (∅ : gset string)) = 1) as Hsize
    by (rewrite union_empty_r_L; apply size_singleton).
  assert (∃ s1, loop_body s0 = s1
                ∧ all_entries s1 = [make_entry 1 (Some title) root_url (str_content sections)]
                ∧ urls_to_visit s1 = links
                ∧ visited_urls s1 = {[canon root_url]} ∪ ∅) as (s1 & Hs1 & He1 & Hq1 & Hv1).
  { eexists. split; [reflexivity |].
    unfold Clarkie.loop_body. cbn [urls_to_visit s0 set_queue visited_urls].
    rewrite !bool_decide_eq_false_2 by set_solver.
    cbn [requests add_visited List.length set_queue visited_urls all_entries urls_to_visit counter skipped_urls empty_content_urls].
    unfold fetch_url. change (List.length (requests s0)) with 1.
    rewrite Hget1, Hne1.
    rewrite (extract_content_extracted html1 root_url Hne1), Hex.
    rewrite record_page_extracted.
    unfold Clarkie.discover.
    assert (∀ s', visited_urls s' = {[canon root_url]} ∪ ∅ →
                  Nat.ltb (size (visited_urls s')) max_urls = false) as Hfull.
    { intros s' ->. rewrite Hsize, Hmax. reflexivity. }
    rewrite Hfull by (destruct (has_text sections); reflexivity).
    destruct (has_text sections); auto. }
  exists s1. cbn [Clarkie.while]. rewrite Hc0, Hs1.
  assert (loop_cond s1 = false) as Hc1.
  { unfold Clarkie.loop_cond. rewrite Hv1, Hsize, Hmax. apply andb_false_r. }
  split; [| auto]. destruct fuel; cbn [Clarkie.while]; rewrite Hc1; reflexivity.
Qed.

End Crawl.

(** ** Runs on the fixtures *)

Section Runs.
Import PyStr PyRepr PyEval Soup Fixture.

#[local] Open Scope nat_scope.

Lemma libs_set_order (docs : list (string * list node)) (web : list (string * string)) :
  SetOrder (libs docs web).
Proof.
  split; cbn; intros l.
  - apply NoDup_remove_dups.
  - intros x. apply elem_of_remove_dups.
Qed.

Lemma web_init_reachable : reachable (L := web) 5 home web_init.
Proof. apply reachable_init. vm_compute. reflexivity. Qed.

Lemma web_state_reachable (n : nat) :
  n ≤ 3 → reachable (L := web) 5 home (web_state n).
Proof.
  intros Hn.
  assert (∀ k, k < 3 → loop_cond 5 (web_state k) = true) as Hcond.
  { intros [|[|[|k]]] Hk; try lia; vm_compute; reflexivity. }
  induction n as [|n IH]; [apply web_init_reachable |].
  change (web_state (S n)) with (loop_body (L := web) 5 (web_state n)).
  apply reachable_step; [apply IH; lia | apply Hcond; lia].
Qed.


(** *** The theorems at the fixtures *)

Lemma visit_bound_witness :
  reachable (L := web) 5 home (web_state 2)
  ∧ size (visited_urls (web_state 2)) ≤ 5
  ∧ visited_urls (web_state 2) ⊆ visited_urls (loop_body (L := web) 5 (web_state 2))
  ∧ ∀ fuel final,
      while (L := web) 5 fuel (web_state 2) = Some final →
      size (visited_urls final) ≤ 5 ∧ visited_urls (web_state 2) ⊆ visited_urls final.
Proof.
  assert (reachable (L := web) 5 home (web_state 2)) as Hs
    by (apply web_state_reachable; lia).
  split; [exact Hs | apply (visit_bound (L := web) 5 home (web_state 2) Hs)].
Defined.

Lemma queue_dedup_witness :
  reachable (L := web) 5 home (web_state 2)
  ∧ NoDup (tail (urls_to_visit (web_state 2)))
  ∧ (visited_urls (web_state 2) ≠ ∅ → NoDup (urls_to_visit (web_state 2)))
  ∧ ∀ link, link ∈ urls_to_visit (loop_body (L := web) 5 (web_state 2)) →
            link ∈ tail (urls_to_visit (web_state 2))
            ∨ ((split_head "#" link ∉ visited_urls (loop_body (L := web) 5 (web_state 2)))
               ∧ link ∉ tail (urls_to_visit (web_state 2))).
Proof.
  assert (reachable (L := web) 5 home (web_state 2)) as Hs
    by (apply web_state_reachable; lia).
  split; [exact Hs |].
  apply (queue_dedup (L := web) 5 home (SetOrder0 := libs_set_order docs site)
           (web_state 2) Hs).
Defined.

Lemma fetch_once_witness :
  reachable (L := web) 5 home (web_state 3)
  ∧ ∃ R, requests (web_state 3) = home :: R
         ∧ NoDup (map (split_head "#") R)
         ∧ ∀ u, count_occ string_dec (requests (web_state 3)) u
                ≤ (if decide (u = home) then 2 else 1).
Proof.
  assert (reachable (L := web) 5 home (web_state 3)) as Hs
    by (apply web_state_reachable; lia).
  split; [exact Hs | apply (fetch_once (L := web) 5 home (web_state 3) Hs)].
Defined.

Lemma record_shape_witness :
  let e := Entry "3" "Untitled Page" "https://h.org/b#x" "{'sections': [{'text': 'b'}]}" in
  reachable (L := web) 5 home (web_state 3)
  ∧ all_entries (web_state 3) !! 2 = Some e
  ∧ entry_id e = pretty 3
  ∧ ∃ n html title sections,
      requests (web_state 3) !! n = Some (entry_url e)
      ∧ requests_get (Libraries := web) n (entry_url e) = Some html
      ∧ extracted (L := web) html = Some (title, sections)
      ∧ entry_title e = (if is_empty title then "Untitled Page" else title)
      ∧ entry_text e = str_content sections
      ∧ eval_content (entry_text e) = Some sections.
Proof.
  intros e.
  assert (reachable (L := web) 5 home (web_state 3)) as Hs
    by (apply web_state_reachable; lia).
  assert (all_entries (web_state 3) !! 2 = Some e) as He by (vm_compute; reflexivity).
  split; [exact Hs |]. split; [exact He |].
  apply (record_shape (L := web) 5 home (web_state 3) 2 e Hs He).
Defined.

Lemma bound_of_one_witness :
  ∃ final,
    main (L := web) 1 home 1 = Some final
    ∧ all_entries final = [make_entry 1 (Some "") home (str_content [Section_ None "A"])]
    ∧ urls_to_visit final = ["https://h.org/a"].
Proof.
  apply (bound_of_one (L := web) 1 home home_html home_html "" ["https://h.org/a"]
           [Section_ None "A"] 1);
    solve [reflexivity | vm_compute; reflexivity | lia].
Defined.

Lemma extract_links_post_witness :
  ∃ links,
    extract_links (L := web) foo_html "https://example.org/x" = Some links
    ∧ NoDup links
    ∧ ∀ u, u ∈ links ↔
           ∃ href,
             href ∈ anchors_href (soup_of [a "/foo" "foo"])
             ∧ get_domain (L := web) u = Some "example.org"
             ∧ ((startswith href "/" = true ∧ u = "https://" +:+ "example.org" +:+ href)
                ∨ (startswith href "/" = false
                   ∧ startswith href "http://" || startswith href "https://" = true
                   ∧ u = href)).
Proof.
  apply (extract_links_post (L := web) (SetOrder0 := libs_set_order docs site)
           foo_html "https://example.org/x" "example.org" [a "/foo" "foo"]).
  - reflexivity.
  - reflexivity.
  - intros href u _ _. eexists. reflexivity.
Defined.

Lemma heading_sections_witness :
  extract_content (L := web) intro_html home
  = Returned
      (Some "Intro",
       Some "{'sections': [{'header': 'Intro', 'text': 'a b'}, {'header': 'Details', 'text': 'c'}]}").
Proof.
  refine (heading_sections (L := web) intro_html home
            [el "h1" [Text "Intro"]; p "a"; p "b"; el "h1" [Text "Details"]; p "c"]
            _ _ _ _);
    [reflexivity | reflexivity | vm_compute; reflexivity | vm_compute; discriminate].
Defined.

Lemma extract_content_nonempty_witness :
  ∃ title sections,
    extract_content (L := web) blank_html home
    = Returned (Some title, Some (str_content sections))
    ∧ sections ≠ []
    ∧ is_empty (str_content sections) = false
    ∧ eval_content (str_content sections) = Some sections.
Proof.
  apply (extract_content_nonempty (L := web) blank_html home [el "p" []]); reflexivity.
Defined.

(** The link [/foo] on the base [https://example.org/x]. *)
Example extract_links_foo :
  extract_links (L := web) foo_html "https://example.org/x"
  = Some ["https://example.org/foo"].
Proof. vm_compute. reflexivity. Qed.

(** The whole run on [site]: three entries, the third under the URL with
    its fragment; the other fragment of the same page is taken from the
    queue and passed over. *)
Example web_run :
  map entry_url <$> (all_entries <$> main (L := web) 5 home 5)
  = Some [home; "https://h.org/a"; "https://h.org/b#x"]
  ∧ requests <$> main (L := web) 5 home 5
    = Some [home; home; "https://h.org/a"; "https://h.org/b#x"]
  ∧ urls_to_visit <$> main (L := web) 5 home 5 = Some [].
Proof. repeat split; vm_compute; reflexivity. Qed.

(** *** Where the code parts from the specification *)

(** C1 as stated fails: the page [/a] links to two fragments of [/b];
    after its iteration both are in the queue, and they have one
    fragment-free form. *)
Lemma queue_dedup_counterexample :
  reachable (L := web) 5 home (web_state 2)
  ∧ urls_to_visit (web_state 2) = ["https://h.org/b#x"; "https://h.org/b#y"]
  ∧ ¬ NoDup (map (split_head "#") (urls_to_visit (web_state 2))).
Proof.
  split; [apply web_state_reachable; lia |].
  assert (urls_to_visit (web_state 2) = ["https://h.org/b#x"; "https://h.org/b#y"]) as ->
    by (vm_compute; reflexivity).
  split; [reflexivity |].
  intros [Hin _]%NoDup_cons. apply Hin. left.
Qed.

(** C9 as stated fails: the root is requested before the loop and
    again by the first iteration. *)
Lemma fetch_once_counterexample :
  reachable (L := web) 5 home (web_state 1)
  ∧ requests (web_state 1) = [home; home]
  ∧ count_occ string_dec (requests (web_state 1)) home = 2.
Proof.
  split; [apply web_state_reachable; lia |].
  split; vm_compute; reflexivity.
Qed.

(** C7 as stated fails: with room for one page the run on [site]
    records the home page and ends with the link of the home page still
    in the queue. *)
Lemma bound_of_one_counterexample :
  fetch_url (L := web) 0 home = Some home_html
  ∧ fetch_url (L := web) 1 home = Some home_html
  ∧ (List.length ∘ all_entries) <$> main (L := web) 1 home 1 = Some 1
  ∧ urls_to_visit <$> main (L := web) 1 home 1 = Some ["https://h.org/a"].
Proof. repeat split; vm_compute; reflexivity. Qed.

(** C5 as stated fails: on a base URL with the scheme [http] the link
    [/foo] comes out with [https], not with the scheme of the base. *)
Lemma extract_links_counterexample :
  extract_links (L := web) foo_html "http://example.org/x" = Some ["https://example.org/foo"]
  ∧ spec_links (L := web) "http" "example.org" (anchors_href (soup_of [a "/foo" "foo"]))
    = ["http://example.org/foo"]
  ∧ ¬ (∀ u, u ∈ ["https://example.org/foo"] ↔
            u ∈ spec_links (L := web) "http" "example.org"
                  (anchors_href (soup_of [a "/foo" "foo"]))).
Proof.
  assert (spec_links (L := web) "http" "example.org" (anchors_href (soup_of [a "/foo" "foo"]))
          = ["http://example.org/foo"]) as -> by (vm_compute; reflexivity).
  split; [vm_compute; reflexivity |]. split; [reflexivity |].
  intros H. specialize (H "https://example.org/foo") as [H _].
  assert ("https://example.org/foo" ∈ ["http://example.org/foo"]) as Hin by (apply H; left).
  apply list_elem_of_singleton in Hin. discriminate.
Qed.

(** C10 as stated fails on the empty string, which is not [None] and
    parses (to a document without nodes): [extract_content] returns
    [(None, None)], no text at all. *)
Lemma extract_content_nonempty_counterexample :
  BeautifulSoup (Libraries := web) "" = Some []
  ∧ extract_content (L := web) "" home = Returned (None, None).
Proof. split; reflexivity. Qed.

(** C3: a page without title and without text is recorded, not
    skipped.  The home page of [blank_site] has an empty paragraph and
    nothing else: its title is empty and its only section has an empty
    text, yet the run records it under the placeholder title, counts it
    in [empty_content_urls] and leaves [skipped_urls] at 0. *)
Theorem blank_page_recorded :
  fetch_url (L := blank_web) 1 home = Some blank_html
  ∧ extracted (L := blank_web) blank_html = Some ("", [Section_ None ""])
  ∧ all_entries <$> main (L := blank_web) 5 home 2
    = Some [Entry "1" "Untitled Page" home "{'sections': [{'text': ''}]}"]
  ∧ skipped_urls <$> main (L := blank_web) 5 home 2 = Some 0
  ∧ empty_content_urls <$> main (L := blank_web) 5 home 2 = Some 1.
Proof. repeat split; vm_compute; reflexivity. Qed.

(** C4: a [main] element is never chosen.  In a document whose body
    holds a paragraph and a [main] element with another paragraph, the
    region is the body, and the text outside [main] is in the section. *)
Theorem main_element_ignored :
  let body := el "body" [p "outside"; el "main" [p "inside"]] in
  BeautifulSoup (Libraries := web) main_html = Some [body]
  ∧ select_main_content (decompose_all noise_tags (soup_of [body])) = body
  ∧ extract_content (L := web) main_html home
    = Returned (Some "", Some "{'sections': [{'text': 'outside inside'}]}").
Proof. repeat split; vm_compute; reflexivity. Qed.

End Runs.


(** ** More on the crawl loop *)

Section CrawlMore.
Import PyStr PyRepr PyEval Soup.

#[local] Open Scope nat_scope.

Context {L : Libraries}.
Variable max_urls : nat.
Variable root_url : string.

#[local] Abbreviation loop_body := (loop_body max_urls).
#[local] Abbreviation loop_cond := (loop_cond max_urls).
#[local] Abbreviation discover := (discover max_urls).
#[local] Abbreviation main_init := (main_init root_url).
#[local] Abbreviation reachable := (reachable max_urls root_url).
#[local] Abbreviation while := (while max_urls).
#[local] Abbreviation main := (main max_urls root_url).
#[local] Abbreviation canon := (split_head "#").

(** *** The counters *)

Lemma record_page_account (u : string) (t c : option string) (s : state) :
  ∃ de ds dz,
    de + ds = 1 ∧ dz ≤ de
    ∧ List.length (all_entries (record_page u t c s)) = List.length (all_entries s) + de
    ∧ skipped_urls (record_page u t c s) = skipped_urls s + ds
    ∧ empty_content_urls (record_page u t c s) = empty_content_urls s + dz.
Proof.
  unfold record_page. destruct (truthy t || truthy c).
  - destruct c as [c|]; [destruct (eval_content c) as [sections|] |].
    + destruct (has_text sections).
      * exists 1, 0, 0. cbn. rewrite length_app. cbn. lia.
      * exists 1, 0, 1. cbn. rewrite length_app. cbn. lia.
    + exists 1, 0, 0. cbn. rewrite length_app. cbn. lia.
    + exists 1, 0, 0. cbn. rewrite length_app. cbn. lia.
  - exists 0, 1, 0. cbn. lia.
Qed.

Lemma loop_body_account (s : state) (u : string) (rest : list string) :
  urls_to_visit s = u :: rest →
  loop_body s = set_queue rest s
  ∨ ((canon u ∉ visited_urls s)
     ∧ visited_urls (loop_body s) = {[canon u]} ∪ visited_urls s
     ∧ ∃ de ds dz,
         de + ds = 1 ∧ dz ≤ de
         ∧ List.length (all_entries (loop_body s)) = List.length (all_entries s) + de
         ∧ skipped_urls (loop_body s) = skipped_urls s + ds
         ∧ empty_content_urls (loop_body s) = empty_content_urls s + dz).
Proof.
  intros Hq. unfold Clarkie.loop_body. rewrite Hq.
  cbn [visited_urls set_queue].
  case_bool_decide as Hu; [left; reflexivity |].
  case_bool_decide as Hc; [left; reflexivity |].
  right. split; [assumption |].
  set (s1 := log_request u (add_visited (canon u) (set_queue rest s))).
  assert (∃ de ds dz,
            de + ds = 1 ∧ dz ≤ de
            ∧ List.length (all_entries (skip s1)) = List.length (all_entries s) + de
            ∧ skipped_urls (skip s1) = skipped_urls s + ds
            ∧ empty_content_urls (skip s1) = empty_content_urls s + dz) as Hskip
    by (exists 0, 1, 0; cbn; lia).
  destruct (fetch_url _ u) as [html|]; [| split; [reflexivity | exact Hskip]].
  destruct (is_empty html); [split; [reflexivity | exact Hskip] |].
  destruct (extract_content html u) as [|[title content]];
    [split; [reflexivity | exact Hskip] |].
  destruct (discover_frame max_urls html u (record_page u title content s1))
    as (-> & -> & _ & -> & -> & _).
  destruct (record_page_frame u title content s1) as (-> & _ & _).
  split; [reflexivity |]. apply (record_page_account u title content s1).
Qed.

(** X1.  The figures [main] prints at the end add up: every URL in the
    visited set was either recorded or skipped, never both and never
    neither, and only recorded pages are counted as empty. *)
Theorem run_accounting (s : state) :
  reachable s →
  size (visited_urls s) = skipped_urls s + List.length (all_entries s)
  ∧ empty_content_urls s ≤ List.length (all_entries s).
Proof.
  induction 1 as [s Hinit | s Hs [IH1 IH2] Hcond].
  - apply main_init_state in Hinit as (links & -> & _). cbn.
    rewrite size_empty. lia.
  - apply loop_cond_true in Hcond as [(u & rest & Hq) _].
    destruct (loop_body_account s u rest Hq)
      as [-> | (Hnew & -> & de & ds & dz & H1 & H2 & -> & -> & ->)].
    + cbn. auto.
    + rewrite (size_add_new _ _ Hnew). lia.
Qed.

(** *** Ending *)

Lemma while_more_fuel (fuel k : nat) (s final : state) :
  while fuel s = Some final → while (fuel + k) s = Some final.
Proof.
  revert s. induction fuel as [|fuel IH]; intros s Hw; simpl in Hw.
  - destruct (loop_cond s) eqn:Hc; [discriminate |].
    destruct k; simpl; rewrite Hc; assumption.
  - simpl. destruct (loop_cond s); [apply IH, Hw | assumption].
Qed.

(** X2.  A run that gets to the loop ends: some number of iterations
    brings the loop to its end, and the state it ends in is the same for
    every larger allowance. *)
Theorem run_terminates (s0 : state) :
  main_init = Some s0 →
  ∃ fuel final,
    main fuel = Some final
    ∧ loop_cond final = false
    ∧ ∀ fuel', fuel ≤ fuel' → main fuel' = Some final.
Proof.
  intros Hinit.
  destruct (while_terminates max_urls (max_urls - size (visited_urls s0))
              (List.length (urls_to_visit s0)) s0) as (fuel & final & Hw); [lia .. |].
  exists fuel, final. unfold Clarkie.main. rewrite Hinit. cbn [mbind option_bind].
  split; [exact Hw |]. split.
  - eapply while_reachable; [apply reachable_init, Hinit | exact Hw].
  - intros fuel' Hle. replace fuel' with (fuel + (fuel' - fuel)) by lia.
    apply while_more_fuel, Hw.
Qed.

(** *** The domain *)

Lemma same_domain_links_domain (domain : string) (hrefs links : list string) :
  same_domain_links domain hrefs = Some links →
  ∀ u, u ∈ links → get_domain u = Some domain.
Proof.
  revert links. induction hrefs as [|href r IH]; intros links H; cbn [same_domain_links] in H.
  - injection H as <-. intros u Hu. inversion Hu.
  - destruct (resolve_href domain href) as [href'|]; [| exact (IH links H)].
    destruct (get_domain href') as [d|] eqn:Hd; [| discriminate].
    destruct (same_domain_links domain r) as [links'|]; [| discriminate].
    cbn [mbind option_bind] in H. injection H as <-.
    destruct (String.eqb_spec d domain) as [-> | Hne]; [| exact (IH links' eq_refl)].
    intros u [-> | Hu]%elem_of_cons; [exact Hd | exact (IH links' eq_refl u Hu)].
Qed.

Lemma extract_links_domain `{!SetOrder L} (html base : string) (links : list string) :
  extract_links html base = Some links →
  ∃ domain, get_domain base = Some domain ∧ ∀ u, u ∈ links → get_domain u = Some domain.
Proof.
  unfold extract_links. intros H.
  destruct (BeautifulSoup html); [| discriminate]. cbn [mbind option_bind] in H.
  destruct (get_domain base) as [domain|]; [| discriminate]. cbn [mbind option_bind] in H.
  destruct (same_domain_links _ _) as [found|] eqn:Hl; [| discriminate].
  cbn [mbind option_bind] in H. injection H as <-.
  exists domain. split; [reflexivity |]. intros u Hu.
  apply (proj1 (list_set_elem found u)) in Hu.
  exact (same_domain_links_domain _ _ _ Hl u Hu).
Qed.

(** An iteration, with where the links it queues come from. *)
Lemma loop_body_links (s : state) (u : string) (rest : list string) :
  urls_to_visit s = u :: rest →
  (requests (loop_body s) = requests s ∨ requests (loop_body s) = requests s ++ [u])
  ∧ ∃ links,
      urls_to_visit (loop_body s)
      = fold_left (enqueue (visited_urls (loop_body s))) links rest
      ∧ (links = [] ∨ ∃ html, extract_links html u = Some links).
Proof.
  intros Hq. unfold Clarkie.loop_body. rewrite Hq.
  cbn [visited_urls set_queue].
  case_bool_decide as Hu; [split; [left; reflexivity | exists []; auto] |].
  case_bool_decide as Hc; [split; [left; reflexivity | exists []; auto] |].
  set (s1 := log_request u (add_visited (canon u) (set_queue rest s))).
  assert (∀ s', requests s' = requests s1 → urls_to_visit s' = rest →
                (requests s' = requests s ∨ requests s' = requests s ++ [u])
                ∧ ∃ links,
                    urls_to_visit s' = fold_left (enqueue (visited_urls s')) links rest
                    ∧ (links = [] ∨ ∃ html, extract_links html u = Some links)) as Hplain.
  { intros s' Hr Hq'. split; [right; exact Hr | exists []; auto]. }
  destruct (fetch_url _ u) as [html|]; [| apply Hplain; reflexivity].
  destruct (is_empty html); [apply Hplain; reflexivity |].
  destruct (extract_content html u) as [|[title content]]; [apply Hplain; reflexivity |].
  destruct (record_page_frame u title content s1) as (Hv & Hq1 & Hr).
  unfold Clarkie.discover.
  destruct (Nat.ltb _ _); [| apply Hplain; assumption].
  destruct (extract_links html u) as [links|] eqn:Hl; [| apply Hplain; assumption].
  split; [right; exact Hr |]. exists links. cbn. rewrite Hq1. eauto.
Qed.

(** X3.  The crawl stays on the domain of the root: every URL in the
    queue, every URL requested and the URL of every entry is the root
    itself or a URL with the root's domain. *)
Theorem stays_on_domain `{!SetOrder L} (s : state) :
  reachable s →
  ∀ u, u ∈ urls_to_visit s ∨ u ∈ requests s ∨ u ∈ map entry_url (all_entries s) →
       u = root_url ∨ ∃ domain, get_domain root_url = Some domain ∧ get_domain u = Some domain.
Proof.
  intros Hs.
  assert (∀ u, u ∈ urls_to_visit s ∨ u ∈ requests s →
               u = root_url
               ∨ ∃ domain, get_domain root_url = Some domain ∧ get_domain u = Some domain) as Hqr.
  { induction Hs as [s Hinit | s Hs IH Hcond].
    - apply main_init_state in Hinit as (links & -> & Hlinks). cbn.
      intros u [[-> | Hu]%elem_of_cons | ->%list_elem_of_singleton]; auto.
      destruct Hlinks as [-> | (html & _ & _ & Hl)]; [inversion Hu |].
      apply extract_links_domain in Hl as (domain & Hroot & Hdom). right. eauto.
    - apply loop_cond_true in Hcond as [(v & rest & Hq) _].
      destruct (loop_body_links s v rest Hq) as (Hreq & links & Hl & Hfrom).
      assert (∀ u, u ∈ links →
                   ∃ domain, get_domain root_url = Some domain ∧ get_domain u = Some domain)
        as Hlinks.
      { intros u Hu. destruct Hfrom as [-> | (html & Hex)]; [inversion Hu |].
        apply extract_links_domain in Hex as (domain & Hv & Hdom).
        exists domain. split; [| auto].
        destruct (IH v) as [-> | (d & Hroot & Hvd)]; [left; rewrite Hq; left | assumption |].
        congruence. }
      intros u [Hu | Hu].
      + rewrite Hl in Hu. apply fold_enqueue_elem in Hu as [Hu | (Hu & _)].
        * apply IH. left. rewrite Hq. now right.
        * right. auto.
      + destruct Hreq as [Hreq | Hreq]; rewrite Hreq in Hu.
        * apply IH. auto.
        * apply elem_of_app in Hu as [Hu | ->%list_elem_of_singleton];
            apply IH; [auto | left; rewrite Hq; left]. }
  intros u [Hu | [Hu | Hu]]; [auto .. |].
  apply list_elem_of_fmap in Hu as (e & -> & He).
  apply list_elem_of_lookup in He as [i Hi].
  destruct (reachable_entries max_urls root_url s Hs) as [_ Hrec].
  destruct (Hrec i e Hi) as (_ & n & html & title & sections & Hn & _).
  apply Hqr. right. eapply list_elem_of_lookup_2, Hn.
Qed.

(** *** The visited set *)

Lemma split_head_free (c : ascii) (s : string) : contains c (split_head c s) = false.
Proof.
  induction s as [|d s IH]; [reflexivity |]. cbn [split_head].
  destruct (Ascii.eqb d c) eqn:Hd; [reflexivity |].
  cbn [contains]. rewrite IH, Ascii.eqb_sym, Hd. reflexivity.
Qed.

(** X4.  The visited set is the set of the fragment-free forms of the
    URLs the loop has fetched, one fetch for each: its size is the number
    of fetches of the loop, and none of its elements has a [#]. *)
Theorem visited_is_fetched (s : state) :
  reachable s →
  ∃ R, requests s = root_url :: R
       ∧ visited_urls s = list_to_set (map canon R)
       ∧ size (visited_urls s) = List.length R
       ∧ ∀ v, v ∈ visited_urls s → contains "#" v = false.
Proof.
  intros Hs.
  assert (∃ R, requests s = root_url :: R ∧ visited_urls s = list_to_set (map canon R))
    as (R & HR & Hv).
  { induction Hs as [s Hinit | s Hs (R & HR & Hv) Hcond].
    - apply main_init_state in Hinit as (links & -> & _). exists []. auto.
    - apply loop_cond_true in Hcond as [(u & rest & Hq) _].
      destruct (loop_body_cases max_urls s u rest Hq) as [[_ ->] | (_ & -> & -> & _)].
      + exists R. auto.
      + exists (R ++ [u]). rewrite HR. split; [reflexivity |].
        rewrite map_app, list_to_set_app_L, Hv. cbn [map list_to_set].
        rewrite union_empty_r_L. apply (comm_L (∪)). }
  destruct (reachable_requests max_urls root_url s Hs) as (R' & HR' & Hnd & _).
  assert (R' = R) as -> by congruence.
  exists R. repeat split; try assumption.
  - rewrite Hv, size_list_to_set by assumption. apply length_map.
  - intros v Hin. rewrite Hv in Hin. apply elem_of_list_to_set in Hin.
    apply list_elem_of_fmap in Hin as (u & -> & _). apply split_head_free.
Qed.

(** *** The root that cannot be fetched *)

(** X5.  When both fetches of the root fail (an error, or an empty body)
    the run ends after one iteration with no entry, one skipped URL and
    an empty queue. *)
Theorem root_fetch_fails (fuel : nat) :
  0 < max_urls → 0 < fuel →
  (∀ n, n < 2 → match requests_get n root_url with
                | Some html => is_empty html = true
                | None => True
                end) →
  ∃ final,
    main fuel = Some final
    ∧ all_entries final = []
    ∧ skipped_urls final = 1
    ∧ urls_to_visit final = []
    ∧ requests final = [root_url; root_url].
Proof.
  intros Hmax Hfuel Hfail.
  destruct fuel as [|fuel]; [lia |].
  set (s0 := State [] ∅ [root_url] 1 0 0 [root_url]).
  assert (main_init = Some s0) as Hinit.
  { unfold Clarkie.main_init, fetch_url. specialize (Hfail 0 ltac:(lia)).
    destruct (requests_get 0 root_url) as [html|]; [rewrite Hfail |]; reflexivity. }
  set (s1 := skip (log_request root_url (add_visited (canon root_url) (set_queue [] s0)))).
  assert (loop_body s0 = s1) as Hbody.
  { unfold Clarkie.loop_body. cbn [urls_to_visit s0 set_queue visited_urls].
    rewrite !bool_decide_eq_false_2 by set_solver.
    unfold fetch_url.
    change (requests_get (List.length _) root_url) with (requests_get 1 root_url).
    specialize (Hfail 1 ltac:(lia)).
    destruct (requests_get 1 root_url) as [html|]; [rewrite Hfail |]; reflexivity. }
  exists s1. unfold Clarkie.main. rewrite Hinit. cbn [mbind option_bind Clarkie.while].
  assert (loop_cond s0 = true) as ->.
  { unfold Clarkie.loop_cond. cbn [urls_to_visit visited_urls s0 is_empty_list negb andb].
    rewrite size_empty. apply Nat.ltb_lt, Hmax. }
  rewrite Hbody.
  assert (loop_cond s1 = false) as Hc1 by reflexivity.
  split; [destruct fuel; cbn [Clarkie.while]; rewrite Hc1; reflexivity |].
  repeat split.
Qed.

(** *** The identifiers *)

(** X6.  No two entries have the same ["id"]. *)
Theorem entry_ids_distinct (s : state) :
  reachable s → NoDup (map entry_id (all_entries s)).
Proof.
  intros Hs. destruct (reachable_entries max_urls root_url s Hs) as [_ Hrec].
  apply NoDup_alt. intros i j x Hi Hj.
  apply list_lookup_fmap_Some in Hi as (ei & -> & Hi).
  apply list_lookup_fmap_Some in Hj as (ej & Heq & Hj).
  destruct (Hrec i ei Hi) as [Hidi _]. destruct (Hrec j ej Hj) as [Hidj _].
  rewrite Hidi, Hidj in Heq. apply (inj pretty) in Heq. lia.
Qed.

End CrawlMore.


(** ** More on extraction *)

Section ExtractionMore.
Import PyStr PyRepr PyEval Soup SoupFacts SoupMore.

#[local] Open Scope nat_scope.

Context {L : Libraries}.

(** *** Noise *)

Lemma decompose_all_Element (names : list string) (nm : string)
    (attrs : list (string * string)) (cs : list node) :
  decompose_all names (Element nm attrs cs) = Element nm attrs (decompose_list names cs).
Proof.
  cbn [decompose_all]. f_equal.
  induction cs as [|c cs IH]; [reflexivity |]. cbn [decompose_list]. now rewrite IH.
Qed.

Lemma decompose_all_name (names : list string) (n : node) :
  name (decompose_all names n) = name n.
Proof. destruct n; reflexivity. Qed.

Lemma noise_removed (names : list string) (n : node) :
  ∀ d, d ∈ descendants (decompose_all names n) → name_in names (fst d) = false.
Proof.
  induction n as [s | s | nm attrs cs IH] using node_forall_ind;
    intros d Hd; [inversion Hd .. |].
  rewrite decompose_all_Element, descendants_Element in Hd.
  induction cs as [|c cs IHcs]; [inversion Hd |].
  apply Forall_cons in IH as [IHc IHrest].
  cbn [decompose_list] in Hd. destruct (name_in names c) eqn:Hc; [auto |].
  cbn [descendants_list] in Hd.
  apply elem_of_cons in Hd as [-> | Hd].
  - cbn [fst]. unfold name_in in *. now rewrite decompose_all_name.
  - apply elem_of_app in Hd as [Hd | Hd]; auto.
Qed.

Lemma descendants_trans (n x : node) (sx : list node) :
  (x, sx) ∈ descendants n → ∀ d, d ∈ descendants x → d ∈ descendants n.
Proof.
  induction n as [s | s | nm attrs cs IH] using node_forall_ind;
    intros Hx d Hd; [inversion Hx .. |].
  rewrite descendants_Element in *.
  induction cs as [|c cs IHcs]; [inversion Hx |].
  apply Forall_cons in IH as [IHc IHrest].
  cbn [descendants_list] in *.
  apply elem_of_cons in Hx as [Heq | Hx].
  - injection Heq as -> ->. right. apply elem_of_app. now left.
  - right. apply elem_of_app. apply elem_of_app in Hx as [Hx | Hx].
    + left. now apply IHc.
    + right. now apply IHcs.
Qed.

Lemma find_all_elem (p : node → bool) (n e : node) :
  e ∈ find_all p n ↔ p e = true ∧ ∃ siblings, (e, siblings) ∈ descendants n.
Proof.
  unfold find_all. rewrite list_elem_of_In, filter_In, <- list_elem_of_In, list_elem_of_fmap.
  split.
  - intros [([e' sibs] & -> & Hin) Hp]. eauto.
  - intros [Hp [sibs Hin]]. split; [exists (e, sibs); auto | assumption].
Qed.

(** *** The choice of the region *)

Lemma max_by_greatest {A : Type} (key : A → nat) (l : list A) :
  ∀ best x, x ∈ best :: l → key x ≤ key (max_by key best l).
Proof.
  induction l as [|y l IH]; intros best x Hx; cbn [max_by].
  - apply list_elem_of_singleton in Hx as ->. lia.
  - destruct (Nat.ltb (key best) (key y)) eqn:Hlt.
    + apply Nat.ltb_lt in Hlt.
      apply elem_of_cons in Hx as [-> | [-> | Hx]%elem_of_cons].
      * etransitivity; [| apply (IH y y); left]. lia.
      * apply IH. left.
      * apply IH. now right.
    + apply Nat.ltb_ge in Hlt.
      apply elem_of_cons in Hx as [-> | [-> | Hx]%elem_of_cons].
      * apply IH. left.
      * etransitivity; [| apply (IH best best); left]. lia.
      * apply IH. now right.
Qed.

(** X7.  The search over the values of one attribute: the element chosen
    carries the first value of the list that any [tag] element of the
    document carries, and among the elements with that value it has the
    longest text. *)
Theorem region_choice (soup : node) (tag attr_name : string) (values : list string) (e : node) :
  try_values soup tag attr_name values = Some e →
  ∃ before value after,
    values = before ++ value :: after
    ∧ (∀ v, v ∈ before →
            find_all (λ n, name_in [tag] n && attr_has attr_name v n) soup = [])
    ∧ e ∈ find_all (λ n, name_in [tag] n && attr_has attr_name value n) soup
    ∧ ∀ e', e' ∈ find_all (λ n, name_in [tag] n && attr_has attr_name value n) soup →
            text_length e' ≤ text_length e.
Proof.
  induction values as [|value vs IH]; cbn [try_values]; [discriminate |].
  destruct (find_all _ soup) as [|e0 es] eqn:Hfind.
  - intros H. destruct (IH H) as (before & v & after & -> & Hnone & Hin & Hmax).
    exists (value :: before), v, after. repeat split; try assumption.
    intros w [-> | Hw]%elem_of_cons; auto.
  - intros [= <-]. exists [], value, vs. rewrite Hfind. repeat split.
    + intros v Hv. inversion Hv.
    + apply max_by_elem.
    + intros e' He'. now apply max_by_greatest.
Qed.

Lemma region_within (soup : node) :
  select_main_content soup = soup
  ∨ ∃ siblings, (select_main_content soup, siblings) ∈ descendants soup.
Proof.
  unfold select_main_content, main_content_tags. cbn [try_selectors try_attrs].
  assert (∀ tag a vs e, try_values soup tag a vs = Some e →
                        ∃ siblings, (e, siblings) ∈ descendants soup) as Hv.
  { intros tag a vs e He. apply region_choice in He as (_ & v & _ & _ & _ & Hin & _).
    now apply find_all_elem in Hin as [_ ?]. }
  destruct (try_values soup "div" "id" _) as [e1|] eqn:H1; [right; eapply Hv, H1 |].
  destruct (try_values soup "div" "class" _) as [e2|] eqn:H2; [right; eapply Hv, H2 |].
  cbn [default]. unfold body_or_soup, find.
  destruct (find_all (name_in ["body"]) soup) as [|b bs] eqn:Hb; [left; reflexivity |].
  right. cbn [head default].
  assert (b ∈ find_all (name_in ["body"]) soup) as Hin by (rewrite Hb; left).
  now apply find_all_elem in Hin as [_ ?].
Qed.

(** X8.  Whatever the document, no element inside the region that is
    chosen after the noise removal is a [nav], [header], [footer],
    [script], [style], [noscript], [iframe], [svg], [aside] or [form]
    element, at any depth. *)
Theorem region_has_no_noise (contents : list node) :
  let region := select_main_content (decompose_all noise_tags (soup_of contents)) in
  ∀ d, d ∈ descendants region → name_in noise_tags (fst d) = false.
Proof.
  intros region d Hd. apply (noise_removed noise_tags (soup_of contents)).
  destruct (region_within (decompose_all noise_tags (soup_of contents))) as [Heq | [sibs Hin]].
  - fold region in Heq. now rewrite <- Heq.
  - eapply descendants_trans; eassumption.
Qed.

(** *** The shape of the sections *)

Lemma header_section_shape (h : node * list node) (x : section) :
  x ∈ header_section h →
  header x = Some (get_text "" (fst h))
  ∧ is_empty (get_text "" (fst h)) = false
  ∧ is_empty (text x) = false.
Proof.
  unfold header_section.
  destruct (is_empty (get_text "" (fst h))) eqn:Hh; [inversion 1 |].
  intros ->%list_elem_of_singleton. cbn [header text]. repeat split.
  destruct (is_empty (join " " (content_parts (snd h)))) eqn:He; [reflexivity | exact He].
Qed.

Lemma header_sections_nil (region : node) :
  header_sections region = [] ↔
  ∀ h, h ∈ descendants region → name_in heading_tags (fst h) = true →
       is_empty (get_text "" (fst h)) = true.
Proof.
  unfold header_sections. split.
  - intros Hnil h Hin Hname.
    destruct (is_empty (get_text "" (fst h))) eqn:Hh; [reflexivity |].
    assert (Section_ (Some (get_text "" (fst h)))
              (if is_empty (join " " (content_parts (snd h)))
               then "No content in this section"
               else join " " (content_parts (snd h)))
            ∈ @nil section) as Habs; [| inversion Habs].
    rewrite <- Hnil. apply list_elem_of_In, in_flat_map. exists h. split.
    + apply filter_In. split; [now apply list_elem_of_In | assumption].
    + unfold header_section. rewrite Hh. left. reflexivity.
  - intros Hall.
    destruct (flat_map _ _) as [|x xs] eqn:Hf; [reflexivity |].
    assert (x ∈ flat_map header_section
              (List.filter (λ h, name_in heading_tags (fst h)) (descendants region)))
      as Hx by (rewrite Hf; left).
    apply list_elem_of_In, in_flat_map in Hx as (h & Hin & Hx).
    apply filter_In in Hin as [Hin Hname]. apply list_elem_of_In in Hin, Hx.
    apply header_section_shape in Hx as (_ & Hne & _).
    rewrite (Hall h Hin Hname) in Hne. discriminate.
Qed.

(** X9.  The sections are never mixed: either the region has no header
    with text and the result is the one block without header (the
    paragraphs or the whole text), or the result is the header sections
    alone, each with a header and a text that are not empty; the block
    without header is never put after header sections. *)
Theorem sections_never_mixed (region : node) :
  (header_sections region = []
   ∧ page_sections region = [fallback_section region]
   ∧ header (fallback_section region) = None)
  ∨ (header_sections region ≠ []
     ∧ page_sections region = header_sections region
     ∧ ∀ x, x ∈ page_sections region →
            ∃ h, header x = Some h ∧ is_empty h = false ∧ is_empty (text x) = false).
Proof.
  destruct (header_sections region) as [|x0 xs] eqn:Hs.
  - left. unfold page_sections. rewrite Hs. repeat split.
    unfold fallback_section. destruct (find_all _ region); reflexivity.
  - right. split; [discriminate |].
    assert (page_sections region = header_sections region) as Heq.
    { unfold page_sections.
      rewrite (header_sections_has_text region) by (rewrite Hs; discriminate).
      rewrite Hs. reflexivity. }
    split; [now rewrite Heq, Hs |].
    intros x Hx. rewrite Heq in Hx. unfold header_sections in Hx.
    apply list_elem_of_In, in_flat_map in Hx as (h & _ & Hx). apply list_elem_of_In in Hx.
    apply header_section_shape in Hx as (Hh & Hne & Ht). eauto.
Qed.

(** X10.  The one block without header is the result exactly when every
    header (h1 to h4) of the region has an empty text, in particular when
    the region has no header. *)
Theorem fallback_when_no_header_text (region : node) :
  page_sections region = [fallback_section region] ↔
  ∀ h, h ∈ descendants region → name_in heading_tags (fst h) = true →
       is_empty (get_text "" (fst h)) = true.
Proof.
  rewrite <- header_sections_nil.
  destruct (sections_never_mixed region) as [(Hnil & Hp & _) | (Hne & Hp & Hall)].
  - split; auto.
  - split; [| congruence]. intros Heq.
    destruct (Hall (fallback_section region)) as (h & Hh & _); [rewrite Heq; left |].
    unfold fallback_section in Hh. destruct (find_all _ region); discriminate.
Qed.

(** X11.  A page is flagged as having no text exactly when it has no
    header with text and the text of the block without header is empty:
    a page with a header that has text is never flagged, even when
    nothing follows its headers. *)
Theorem flagged_empty (region : node) :
  has_text (page_sections region) = false ↔
  header_sections region = [] ∧ is_empty (text (fallback_section region)) = true.
Proof.
  destruct (sections_never_mixed region) as [(Hnil & Hp & _) | (Hne & Hp & Hall)].
  - rewrite Hp. unfold has_text. cbn [existsb]. rewrite orb_false_r, negb_false_iff.
    split; [auto | now intros [_ ?]].
  - rewrite Hp, (header_sections_has_text region Hne). split; [discriminate |].
    now intros [? _].
Qed.

(** *** Links *)

Lemma prefix_append (p s : string) : String.prefix p (p +:+ s) = true.
Proof.
  induction p as [|c p IH]; [destruct s; reflexivity |].
  change (String c p +:+ s) with (String c (p +:+ s)). cbn [String.prefix].
  destruct (ascii_dec c c); [exact IH | congruence].
Qed.

Lemma resolve_href_absolute (domain href u : string) :
  resolve_href domain href = Some u →
  startswith u "http://" || startswith u "https://" = true.
Proof.
  unfold resolve_href. destruct (startswith href "/").
  - intros [= <-]. unfold startswith at 2.
    rewrite (prefix_append "https://" (domain +:+ href)). apply orb_true_r.
  - destruct (startswith href "http://" || startswith href "https://") eqn:Habs;
      cbn [negb]; [| discriminate]. now intros [= <-].
Qed.

Lemma same_domain_links_absolute (domain : string) (hrefs links : list string) :
  same_domain_links domain hrefs = Some links →
  ∀ u, u ∈ links → startswith u "http://" || startswith u "https://" = true.
Proof.
  revert links. induction hrefs as [|href r IH]; intros links H; cbn [same_domain_links] in H.
  - injection H as <-. intros u Hu. inversion Hu.
  - destruct (resolve_href domain href) as [href'|] eqn:Hres; [| exact (IH links H)].
    destruct (get_domain href') as [d|]; [| discriminate].
    destruct (same_domain_links domain r) as [links'|]; [| discriminate].
    cbn [mbind option_bind] in H. injection H as <-.
    destruct (String.eqb d domain); [| exact (IH links' eq_refl)].
    intros u [-> | Hu]%elem_of_cons;
      [exact (resolve_href_absolute _ _ _ Hres) | exact (IH links' eq_refl u Hu)].
Qed.

(** X12.  [extract_links] returns absolute URLs only: every link starts
    with ["http://"] or ["https://"]; a relative path, a fragment, a
    [javascript:] or [mailto:] link is never returned. *)
Theorem links_are_absolute `{!SetOrder L} (html base_url : string) (links : list string) :
  extract_links html base_url = Some links →
  ∀ u, u ∈ links → startswith u "http://" || startswith u "https://" = true.
Proof.
  unfold extract_links. intros H.
  destruct (BeautifulSoup html); [| discriminate]. cbn [mbind option_bind] in H.
  destruct (get_domain base_url) as [domain|]; [| discriminate]. cbn [mbind option_bind] in H.
  destruct (same_domain_links _ _) as [found|] eqn:Hl; [| discriminate].
  cbn [mbind option_bind] in H. injection H as <-.
  intros u Hu. apply (proj1 (list_set_elem found u)) in Hu.
  exact (same_domain_links_absolute _ _ _ Hl u Hu).
Qed.

End ExtractionMore.


(** ** Words and chunks *)

Module WordFacts.
Import PyStr WordsMore.

#[local] Arguments String.append : simpl nomatch.
#[local] Open Scope nat_scope.

Lemma append_nil_r (s : string) : s +:+ "" = s.
Proof. induction s as [|c s IH]; simpl; [reflexivity | now rewrite IH]. Qed.

Lemma split_go_nospace (w : list ascii) :
  ∀ cur rest, nospace w = true →
    split_go cur (string_of_list_ascii w +:+ rest) = split_go (rev w ++ cur) rest.
Proof.
  induction w as [|c w IH]; intros cur rest Hw; [reflexivity |].
  cbn [nospace forallb] in Hw. apply andb_prop in Hw as [Hc Hw].
  apply negb_true_iff in Hc. cbn [string_of_list_ascii]. simpl String.append.
  cbn [split_go]. rewrite Hc, (IH _ _ Hw). cbn [rev]. now rewrite <- app_assoc.
Qed.

Lemma is_word_chars (w : string) :
  is_word w = true →
  nospace (list_ascii_of_string w) = true ∧ list_ascii_of_string w ≠ [].
Proof.
  unfold is_word. intros [Hne Hw]%andb_prop. split; [assumption |].
  destruct w; [discriminate | cbn; discriminate].
Qed.

Lemma split_go_word (w rest : string) :
  is_word w = true →
  split_go [] (w +:+ rest)
  = match rest with
    | EmptyString => [w]
    | String c r => if isspace c then w :: split_go [] r
                    else split_go (c :: rev (list_ascii_of_string w)) r
    end.
Proof.
  intros [Hw Hne]%is_word_chars.
  rewrite <- (string_of_list_ascii_of_string w) at 1.
  rewrite (split_go_nospace _ [] rest Hw), app_nil_r.
  assert (rev (list_ascii_of_string w) ≠ []) as Hrev.
  { intros H. apply Hne. apply (f_equal (@rev ascii)) in H.
    now rewrite rev_involutive in H. }
  destruct rest as [|c r]; cbn [split_go].
  - destruct (rev (list_ascii_of_string w)) as [|a l] eqn:Hr; [congruence |].
    rewrite <- Hr, rev_involutive, string_of_list_ascii_of_string. reflexivity.
  - destruct (isspace c); [| reflexivity].
    destruct (rev (list_ascii_of_string w)) as [|a l] eqn:Hr; [congruence |].
    rewrite <- Hr, rev_involutive, string_of_list_ascii_of_string. reflexivity.
Qed.

(** Splitting the words joined by one space gives the words back. *)
Lemma split_join (ws : list string) :
  Forall (λ w, is_word w = true) ws → split (join " " ws) = ws.
Proof.
  unfold split. induction ws as [|w [|w2 ws] IH]; intros Hws.
  - reflexivity.
  - apply Forall_cons in Hws as [Hw _]. cbn [join].
    rewrite <- (append_nil_r w) at 1. rewrite (split_go_word w "" Hw). reflexivity.
  - apply Forall_cons in Hws as [Hw Hws].
    change (join " " (w :: w2 :: ws)) with (w +:+ String " " (join " " (w2 :: ws))).
    rewrite (split_go_word w _ Hw).
    change (isspace " ") with true. cbn iota. now rewrite (IH Hws).
Qed.

Lemma split_go_words (s : string) :
  ∀ cur, nospace cur = true → Forall (λ w, is_word w = true) (split_go cur s).
Proof.
  assert (∀ cur, nospace cur = true → cur ≠ [] →
                 is_word (string_of_list_ascii (rev cur)) = true) as Hflush.
  { intros cur Hcur Hne. unfold is_word. rewrite list_ascii_of_string_of_list_ascii.
    apply andb_true_intro. split.
    - destruct (rev cur) as [|a l] eqn:Hr; [| reflexivity].
      apply (f_equal (@rev ascii)) in Hr. rewrite rev_involutive in Hr. contradiction.
    - unfold nospace in *. rewrite forallb_forall in *. intros c Hc.
      apply Hcur. now apply in_rev. }
  induction s as [|c s IH]; intros cur Hcur; cbn [split_go].
  - destruct cur as [|a l]; [constructor |].
    constructor; [apply Hflush; [assumption | discriminate] | constructor].
  - destruct (isspace c) eqn:Hc.
    + destruct cur as [|a l]; [apply IH; reflexivity |].
      constructor; [apply Hflush; [assumption | discriminate] | apply IH; reflexivity].
    + apply IH. cbn [nospace forallb]. now rewrite Hc.
Qed.

Lemma split_words (s : string) : Forall (λ w, is_word w = true) (split s).
Proof. apply split_go_words. reflexivity. Qed.

End WordFacts.

Section ChunkFacts.
Import PyStr Soup WordsMore WordFacts Chunks.

#[local] Open Scope nat_scope.

Context {L : Libraries}.

(** *** [chunk_text] *)

(** The slices [words[i:i + n]] for [i] in the range. *)
Lemma slices_concat {A : Type} (words : list A) (n : nat) :
  0 < n →
  ∀ fuel k, List.length words - k ≤ fuel →
    List.concat (map (λ i, take n (drop i words)) (range_from fuel k (List.length words) n))
    = drop k words.
Proof.
  intros Hn. induction fuel as [|fuel IH]; intros k Hfuel; cbn [range_from map List.concat].
  - symmetry. apply drop_ge. lia.
  - destruct (Nat.ltb k (List.length words)) eqn:Hk.
    + cbn [map List.concat]. rewrite IH by (apply Nat.ltb_lt in Hk; lia).
      rewrite <- drop_drop. apply take_drop.
    + apply Nat.ltb_ge in Hk. symmetry. apply drop_ge. lia.
Qed.

Lemma range_from_bound (fuel k stop n i : nat) :
  i ∈ range_from fuel k stop n → i < stop.
Proof.
  revert k. induction fuel as [|fuel IH]; intros k Hi; cbn [range_from] in Hi;
    [inversion Hi |].
  destruct (Nat.ltb k stop) eqn:Hk; [| inversion Hi].
  apply elem_of_cons in Hi as [-> | Hi]; [now apply Nat.ltb_lt | eauto].
Qed.

Lemma range_from_count (stop n : nat) :
  0 < n →
  ∀ fuel k, stop - k ≤ fuel →
    stop - k ≤ List.length (range_from fuel k stop n) * n
    ∧ List.length (range_from fuel k stop n) * n < stop - k + n.
Proof.
  intros Hn. induction fuel as [|fuel IH]; intros k Hfuel; cbn [range_from].
  - cbn. lia.
  - destruct (Nat.ltb k stop) eqn:Hk.
    + apply Nat.ltb_lt in Hk. cbn [List.length].
      destruct (IH (k + n)) as [H1 H2]; [lia |].
      destruct (decide (k + n ≤ stop)) as [Hle | Hgt].
      * lia.
      * assert (List.length (range_from fuel (k + n) stop n) = 0) as ->; [| lia].
        destruct (range_from fuel (k + n) stop n) as [|i l] eqn:Hr; [reflexivity |].
        assert (i < stop) by (eapply range_from_bound; rewrite Hr; left).
        destruct fuel; cbn [range_from] in Hr; [discriminate |].
        destruct (Nat.ltb (k + n) stop) eqn:Hk2; [| discriminate].
        apply Nat.ltb_lt in Hk2. lia.
    + apply Nat.ltb_ge in Hk. cbn. lia.
Qed.

Lemma Forall_take_drop {A : Type} (P : A → Prop) (l : list A) (n i : nat) :
  Forall P l → Forall P (take n (drop i l)).
Proof. intros H. apply Forall_take, Forall_drop, H. Qed.

Lemma chunks_of_words (text : string) (n : nat) :
  0 < n → List.concat (map split (chunks_of (split text) n)) = split text.
Proof.
  intros Hn. unfold chunks_of. rewrite map_map.
  rewrite (map_ext_in _ (λ i, take n (drop i (split text)))).
  - rewrite slices_concat by lia. reflexivity.
  - intros i _. apply split_join, Forall_take_drop, split_words.
Qed.

Lemma chunks_of_sizes (text : string) (n : nat) :
  0 < n →
  (∀ c, c ∈ chunks_of (split text) n →
        1 ≤ List.length (split c) ∧ List.length (split c) ≤ n)
  ∧ List.length (split text) ≤ List.length (chunks_of (split text) n) * n
  ∧ List.length (chunks_of (split text) n) * n < List.length (split text) + n.
Proof.
  intros Hn. unfold chunks_of. split.
  - intros c Hc. apply list_elem_of_fmap in Hc as (i & -> & Hi).
    apply range_from_bound in Hi.
    rewrite split_join by apply Forall_take_drop, split_words.
    rewrite length_take, length_drop. lia.
  - rewrite length_map.
    destruct (range_from_count (List.length (split text)) n Hn
                (List.length (split text)) 0 ltac:(lia)) as [H1 H2].
    lia.
Qed.

Lemma chunks_of_nil (text : string) (n : nat) :
  0 < n → chunks_of (split text) n = [] ↔ split text = [].
Proof.
  intros Hn. pose proof (chunks_of_sizes text n Hn) as (_ & H1 & H2).
  split.
  - intros Hnil. rewrite Hnil in H1.
    destruct (split text); [reflexivity | simpl in H1; lia].
  - intros Hs. destruct (chunks_of (split text) n) as [|c r]; [reflexivity |].
    rewrite Hs in H2. simpl in H2. lia.
Qed.

Lemma chunk_text_positive (text : string) (chunk_size : Z) (chunks : list string) :
  (0 < chunk_size)%Z →
  chunk_text text chunk_size = Some chunks →
  0 < Z.to_nat chunk_size ∧ chunks = chunks_of (split text) (Z.to_nat chunk_size).
Proof.
  intros Hpos. unfold chunk_text. destruct chunk_size as [|n|n]; try lia.
  intros [= <-]. split; [apply Pos2Nat.is_pos | reflexivity].
Qed.

(** X13.  For a positive [chunk_size], [chunk_text] loses no word and
    changes no order: the words of the chunks, one chunk after the other,
    are the words of the text.  (A negative [chunk_size] gives no chunk
    at all, and zero raises: see [chunk_text_edges].) *)
Theorem chunk_text_words (text : string) (chunk_size : Z) (chunks : list string) :
  (0 < chunk_size)%Z →
  chunk_text text chunk_size = Some chunks →
  List.concat (map split chunks) = split text.
Proof.
  intros Hpos H. apply (chunk_text_positive _ _ _ Hpos) in H as [Hn ->].
  now apply chunks_of_words.
Qed.

(** X14.  For a positive [chunk_size], every chunk has at least one word
    and at most [chunk_size] words, and the number of chunks is the
    number of words divided by [chunk_size], rounded up; a text without
    words gives no chunk. *)
Theorem chunk_text_sizes (text : string) (chunk_size : Z) (chunks : list string) :
  (0 < chunk_size)%Z →
  chunk_text text chunk_size = Some chunks →
  (∀ c, c ∈ chunks →
        1 ≤ List.length (split c) ∧ List.length (split c) ≤ Z.to_nat chunk_size)
  ∧ List.length (split text) ≤ List.length chunks * Z.to_nat chunk_size
  ∧ List.length chunks * Z.to_nat chunk_size
    < List.length (split text) + Z.to_nat chunk_size.
Proof.
  intros Hpos H. apply (chunk_text_positive _ _ _ Hpos) in H as [Hn ->].
  now apply chunks_of_sizes.
Qed.

(** The other sizes: a negative [chunk_size] gives no chunk whatever the
    text, and zero raises. *)
Lemma chunk_text_edges (text : string) (chunk_size : Z) :
  ((chunk_size < 0)%Z → chunk_text text chunk_size = Some [])
  ∧ (chunk_size = 0%Z → chunk_text text chunk_size = None).
Proof.
  unfold chunk_text. split; intros H; destruct chunk_size; try lia; reflexivity.
Qed.

(** [chunk_text] with the size 300 returns. *)
Lemma chunk_text_300 (text : string) :
  chunk_text text 300%Z = Some (chunks_of (split text) 300).
Proof. unfold chunk_text. f_equal. Qed.

(** *** [process_page] *)

Lemma chunk_entries_length (title url : pyval) (counter : nat) (chunks : list string) :
  List.length (chunk_entries title url counter chunks) = List.length chunks.
Proof.
  revert counter. induction chunks as [|c r IH]; intros counter; [reflexivity |].
  cbn. now rewrite IH.
Qed.

Lemma chunk_entries_lookup (title url : pyval) (chunks : list string) :
  ∀ counter i e,
    chunk_entries title url counter chunks !! i = Some e →
    ∃ chunk, chunks !! i = Some chunk
             ∧ e = ChunkEntry (pretty (counter + i)) title url chunk.
Proof.
  induction chunks as [|c r IH]; intros counter i e Hi; [destruct i; discriminate |].
  destruct i as [|i]; cbn in Hi.
  - injection Hi as <-. exists c. rewrite Nat.add_0_r. auto.
  - apply IH in Hi as (chunk & Hc & ->). exists chunk.
    replace (counter + S i) with (S counter + i) by lia. auto.
Qed.

Lemma chunk_entries_texts (title url : pyval) (counter : nat) (chunks : list string) :
  map chunk_text_of (chunk_entries title url counter chunks) = chunks.
Proof.
  revert counter. induction chunks as [|c r IH]; intros counter; [reflexivity |].
  cbn. now rewrite IH.
Qed.

(** X15.  [process_page] numbers its entries from the counter it is
    given, one after the other, returns the counter after the last one,
    and gives every entry the title and the URL of the page (the empty
    string for a missing key). *)
Theorem process_page_counter (pg : page) (counter : nat) :
  snd (process_page pg counter) = counter + List.length (fst (process_page pg counter))
  ∧ ∀ i e, fst (process_page pg counter) !! i = Some e →
           chunk_id e = pretty (counter + i)
           ∧ chunk_title e = default (VStr "") (pg_title pg)
           ∧ chunk_url e = default (VStr "") (pg_url pg).
Proof.
  unfold process_page.
  destruct (is_empty_list _ && _).
  - cbn [fst snd List.length]. split; [lia |].
    intros [|i] e Hi; [| destruct i; discriminate].
    injection Hi as <-. rewrite Nat.add_0_r. auto.
  - cbn [fst snd]. rewrite chunk_entries_length. split; [reflexivity |].
    intros i e Hi. apply chunk_entries_lookup in Hi as (chunk & _ & ->). auto.
Qed.

(** X16.  [process_page] returns no entry exactly when the cleaned text
    has no word and neither the title nor the URL is true; a page with
    a title or a URL always gets at least one entry. *)
Theorem process_page_no_entry (pg : page) (counter : nat) :
  let clean := clean_text (content_string (default (VStr "") (pg_content pg))) in
  fst (process_page pg counter) = [] ↔
  split clean = []
  ∧ truth (default (VStr "") (pg_title pg)) || truth (default (VStr "") (pg_url pg)) = false.
Proof.
  intros clean. unfold process_page. fold clean.
  rewrite chunk_text_300.
  change (default [] (Some ?x)) with x.
  pose proof (chunks_of_nil clean 300 ltac:(lia)) as Hnil.
  destruct (chunks_of (split clean) 300) as [|c r]; cbn [is_empty_list andb].
  - destruct (truth _ || truth _); cbn [fst]; split.
    + discriminate.
    + intros [_ ?]. discriminate.
    + intros _. split; [now apply Hnil | reflexivity].
    + reflexivity.
  - cbn [fst chunk_entries]. split; [discriminate |].
    intros [Hs _]. apply Hnil in Hs. discriminate.
Qed.

(** X17.  The text of every entry has at most 300 words.  When the
    cleaned text has words, the words of the entries, one entry after the
    other, are the words of the cleaned text; when it has none and there
    is an entry, it is the only one, and its text is the cleaned text, or
    the marker when that is empty. *)
Theorem process_page_texts (pg : page) (counter : nat) :
  let clean := clean_text (content_string (default (VStr "") (pg_content pg))) in
  let entries := fst (process_page pg counter) in
  (∀ e, e ∈ entries → List.length (split (chunk_text_of e)) ≤ 300)
  ∧ (split clean ≠ [] →
     List.concat (map split (map chunk_text_of entries)) = split clean)
  ∧ (split clean = [] → entries ≠ [] →
     map chunk_text_of entries
     = [if is_empty clean then "No content extracted" else clean]).
Proof.
  intros clean entries. unfold entries, process_page. fold clean.
  rewrite chunk_text_300.
  change (default [] (Some ?x)) with x.
  pose proof (chunks_of_nil clean 300 ltac:(lia)) as Hnil.
  pose proof (chunks_of_sizes clean 300 ltac:(lia)) as (Hsize & _).
  pose proof (chunks_of_words clean 300 ltac:(lia)) as Hwords.
  destruct (chunks_of (split clean) 300) as [|c r]; cbn [is_empty_list andb].
  - assert (split clean = []) as Hs by now apply Hnil.
    destruct (truth _ || truth _); cbn [fst chunk_entries map].
    + split; [| split].
      * intros e ->%list_elem_of_singleton. cbn [chunk_text_of].
        destruct (is_empty clean).
        -- replace (split "No content extracted") with ["No"; "content"; "extracted"]
             by (vm_compute; reflexivity).
           cbn [List.length]. lia.
        -- rewrite Hs. cbn [List.length]. lia.
      * intros Hne. exfalso. exact (Hne Hs).
      * reflexivity.
    + split; [| split].
      * intros e He. inversion He.
      * intros Hne. exfalso. exact (Hne Hs).
      * intros _ Hne. exfalso. now apply Hne.
  - cbn [fst]. repeat split.
    + intros e He. apply list_elem_of_lookup in He as [i Hi].
      apply chunk_entries_lookup in Hi as (chunk & Hchunk & ->). cbn [chunk_text_of].
      apply Hsize. eapply list_elem_of_lookup_2, Hchunk.
    + intros _. rewrite chunk_entries_texts. exact Hwords.
    + intros Hs. apply Hnil in Hs. discriminate.
Qed.

End ChunkFacts.


(** ** The queue and the bound *)

Section CrawlQueue.
Import PyStr PyRepr PyEval Soup.

#[local] Open Scope nat_scope.

Context {L : Libraries}.
Variable max_urls : nat.
Variable root_url : string.

#[local] Abbreviation loop_body := (loop_body max_urls).
#[local] Abbreviation main_init := (main_init root_url).
#[local] Abbreviation main := (main max_urls root_url).

Lemma fold_enqueue_appends (v : gset string) (links q : list string) :
  ∃ added, fold_left (enqueue v) links q = q ++ added ∧ added ⊆ links.
Proof.
  revert q. induction links as [|l links IH]; intros q; cbn [fold_left].
  - exists []. split; [now rewrite app_nil_r | reflexivity].
  - destruct (IH (enqueue v q l)) as (added & -> & Hsub). unfold enqueue.
    destruct (bool_decide _ && bool_decide _).
    + exists (l :: added). rewrite <- app_assoc. split; [reflexivity |].
      intros x [-> | Hx]%elem_of_cons; [left | right; auto].
    + exists added. split; [reflexivity |]. intros x Hx. right. auto.
Qed.

(** X20.  The queue is first in, first out: an iteration takes the first
    URL away and puts new links after the others; it never removes or
    reorders a URL that waits. *)
Theorem queue_is_fifo (s : state) (u : string) (rest : list string) :
  urls_to_visit s = u :: rest →
  ∃ added, urls_to_visit (loop_body s) = rest ++ added.
Proof.
  intros Hq.
  destruct (loop_body_cases max_urls s u rest Hq) as [[_ ->] | (_ & _ & _ & links & ->)].
  - exists []. cbn. now rewrite app_nil_r.
  - destruct (fold_enqueue_appends ({[split_head "#" u]} ∪ visited_urls s) links rest)
      as (added & -> & _).
    eauto.
Qed.

(** X21.  Once the visited set is full no link is looked for: the
    iteration that brings the visited set to [max_urls] elements leaves
    the queue as it was, less the URL it took. *)
Theorem no_links_at_the_bound (s : state) (u : string) (rest : list string) :
  urls_to_visit s = u :: rest →
  max_urls ≤ size (visited_urls (loop_body s)) →
  urls_to_visit (loop_body s) = rest.
Proof.
  intros Hq. unfold Clarkie.loop_body. rewrite Hq.
  cbn [visited_urls set_queue].
  case_bool_decide; [reflexivity |].
  case_bool_decide; [reflexivity |].
  set (s1 := log_request u (add_visited (split_head "#" u) (set_queue rest s))).
  destruct (fetch_url _ u) as [html|]; [| reflexivity].
  destruct (is_empty html); [reflexivity |].
  destruct (extract_content html u) as [|[title content]]; [reflexivity |].
  destruct (discover_frame max_urls html u (record_page u title content s1)) as (-> & _).
  destruct (record_page_frame u title content s1) as (Hv & Hq1 & _).
  intros Hfull. unfold Clarkie.discover.
  rewrite Hv in *. apply Nat.ltb_ge in Hfull. rewrite Hfull. exact Hq1.
Qed.

(** X22.  With [max_urls = 0] the loop is not entered: nothing is
    visited or recorded, whatever the allowance; the root has still been
    fetched once, before the loop. *)
Theorem bound_of_zero (s0 : state) (fuel : nat) :
  max_urls = 0 →
  main_init = Some s0 →
  main fuel = Some s0
  ∧ all_entries s0 = []
  ∧ visited_urls s0 = ∅
  ∧ requests s0 = [root_url].
Proof.
  intros Hmax Hinit. unfold Clarkie.main. rewrite Hinit. cbn [mbind option_bind].
  apply main_init_state in Hinit as (links & -> & _).
  split; [| auto].
  assert (Clarkie.loop_cond max_urls (State [] ∅ (root_url :: links) 1 0 0 [root_url]) = false)
    as Hc.
  { unfold Clarkie.loop_cond. rewrite Hmax. cbn [visited_urls].
    rewrite size_empty. apply andb_false_r. }
  destruct fuel; cbn [Clarkie.while]; rewrite Hc; reflexivity.
Qed.

End CrawlQueue.

(** ** The first notebook *)

Section CatalogFacts.
Import PyStr Soup Catalog.

Context {L : Libraries}.

Lemma prefix_app_l (p a b : string) :
  String.prefix p a = true → String.prefix p (a +:+ b) = true.
Proof.
  revert a. induction p as [|c p IH]; intros a H; [destruct (a +:+ b); reflexivity |].
  destruct a as [|d a]; [discriminate |].
  change (String d a +:+ b) with (String d (a +:+ b)). cbn [String.prefix] in *.
  destruct (ascii_dec c d); [now apply IH | discriminate].
Qed.

Lemma absolute_app (a b : string) :
  startswith a "http://" || startswith a "https://" = true →
  startswith (a +:+ b) "http://" || startswith (a +:+ b) "https://" = true.
Proof.
  unfold startswith. intros [H | H]%orb_prop;
    rewrite (prefix_app_l _ a b H); [reflexivity | apply orb_true_r].
Qed.

Lemma fix_link_result (base_url : string) (l : link) :
  startswith (rstrip_slash base_url) "http://"
  || startswith (rstrip_slash base_url) "https://" = true →
  link_text (fix_link base_url l) = link_text l
  ∧ (link_href (fix_link base_url l) = ""
     ∨ startswith (link_href (fix_link base_url l)) "http://"
       || startswith (link_href (fix_link base_url l)) "https://" = true).
Proof.
  intros Hbase. unfold fix_link. destruct l as [t href]. cbn [link_href link_text].
  destruct (is_empty href) eqn:He.
  - cbn [negb andb link_href link_text]. split; [reflexivity |].
    left. now destruct href.
  - destruct (startswith href "http://" || startswith href "https://") eqn:Ha;
      cbn [negb andb].
    + cbn [link_href link_text]. auto.
    + destruct (startswith href "/"); cbn [link_href link_text];
        (split; [reflexivity | right; now apply absolute_app]).
Qed.

(** X18.  With a base URL that is absolute, [fix_relative_urls] leaves
    only links whose [href] is empty or absolute, and keeps the number
    of links, their order and their texts. *)
Theorem fix_relative_urls_absolute (links : list link) (base_url : string) :
  startswith (rstrip_slash base_url) "http://"
  || startswith (rstrip_slash base_url) "https://" = true →
  map link_text (fix_relative_urls links base_url) = map link_text links
  ∧ ∀ l, l ∈ fix_relative_urls links base_url →
         link_href l = ""
         ∨ startswith (link_href l) "http://" || startswith (link_href l) "https://" = true.
Proof.
  intros Hbase. unfold fix_relative_urls. split.
  - rewrite map_map. apply map_ext. intros l. apply (fix_link_result base_url l Hbase).
  - intros l' (l & -> & _)%list_elem_of_fmap. apply (fix_link_result base_url l Hbase).
Qed.

(** X19.  With a base URL that is absolute, fixing links that were fixed
    changes nothing. *)
Theorem fix_relative_urls_idempotent (links : list link) (base_url : string) :
  startswith (rstrip_slash base_url) "http://"
  || startswith (rstrip_slash base_url) "https://" = true →
  fix_relative_urls (fix_relative_urls links base_url) base_url
  = fix_relative_urls links base_url.
Proof.
  intros Hbase. unfold fix_relative_urls. rewrite map_map. apply map_ext. intros l.
  destruct (fix_link_result base_url l Hbase) as [_ Hres].
  unfold fix_link at 1.
  destruct Hres as [-> | ->]; [reflexivity |].
  cbn [negb]. now rewrite andb_false_r.
Qed.

End CatalogFacts.

(** ** The added theorems at the fixtures *)

Section MoreRuns.
Import PyStr PyRepr PyEval Soup Fixture Fixture2 Chunks Catalog.

#[local] Open Scope nat_scope.

Lemma run_accounting_witness :
  size (visited_urls (web_state 3))
  = skipped_urls (web_state 3) + List.length (all_entries (web_state 3))
  ∧ empty_content_urls (web_state 3) ≤ List.length (all_entries (web_state 3)).
Proof.
  apply (run_accounting (L := web) 5 home (web_state 3)).
  apply web_state_reachable. lia.
Defined.

Lemma run_terminates_witness :
  ∃ fuel final,
    main (L := web) 5 home fuel = Some final
    ∧ loop_cond 5 final = false
    ∧ ∀ fuel', fuel ≤ fuel' → main (L := web) 5 home fuel' = Some final.
Proof.
  apply (run_terminates (L := web) 5 home web_init). vm_compute. reflexivity.
Defined.

Lemma stays_on_domain_witness :
  "https://h.org/b#y" = home
  ∨ ∃ domain, get_domain (L := web) home = Some domain
              ∧ get_domain (L := web) "https://h.org/b#y" = Some domain.
Proof.
  apply (stays_on_domain (L := web) 5 home (SetOrder0 := libs_set_order docs site)
           (web_state 2)).
  - apply web_state_reachable. lia.
  - left. apply list_elem_of_In. vm_compute. right. left. reflexivity.
Defined.

Lemma visited_is_fetched_witness :
  ∃ R, requests (web_state 3) = home :: R
       ∧ visited_urls (web_state 3) = list_to_set (map (split_head "#") R)
       ∧ size (visited_urls (web_state 3)) = List.length R
       ∧ ∀ v, v ∈ visited_urls (web_state 3) → contains "#" v = false.
Proof.
  apply (visited_is_fetched (L := web) 5 home (web_state 3)).
  apply web_state_reachable. lia.
Defined.

Lemma root_fetch_fails_witness :
  ∃ final,
    main (L := dead_web) 5 home 1 = Some final
    ∧ all_entries final = []
    ∧ skipped_urls final = 1
    ∧ urls_to_visit final = []
    ∧ requests final = [home; home].
Proof.
  apply (root_fetch_fails (L := dead_web) 5 home 1); [lia | lia |].
  intros n _. exact I.
Defined.

Lemma entry_ids_distinct_witness : NoDup (map entry_id (all_entries (web_state 3))).
Proof.
  apply (entry_ids_distinct (L := web) 5 home (web_state 3)).
  apply web_state_reachable. lia.
Defined.

Lemma region_choice_witness :
  ∃ before value after,
    ["content"; "main-content"; "mainContent"; "main"] = before ++ value :: after
    ∧ (∀ v, v ∈ before →
            find_all (λ n, name_in ["div"] n && attr_has "id" v n) divs = [])
    ∧ div "content" "bbb" ∈ find_all (λ n, name_in ["div"] n && attr_has "id" value n) divs
    ∧ ∀ e', e' ∈ find_all (λ n, name_in ["div"] n && attr_has "id" value n) divs →
            text_length e' ≤ text_length (div "content" "bbb").
Proof.
  apply (region_choice divs "div" "id" ["content"; "main-content"; "mainContent"; "main"]
           (div "content" "bbb")).
  vm_compute. reflexivity.
Defined.

Lemma region_has_no_noise_witness :
  name_in noise_tags (fst (p "text", @nil node)) = false.
Proof.
  apply (region_has_no_noise [el "nav" [p "menu"]; p "text"] (p "text", [])).
  apply list_elem_of_In. vm_compute. left. reflexivity.
Defined.

Lemma links_are_absolute_witness :
  startswith "https://example.org/foo" "http://"
  || startswith "https://example.org/foo" "https://" = true.
Proof.
  apply (links_are_absolute (L := web) (SetOrder0 := libs_set_order docs site)
           foo_html "https://example.org/x" ["https://example.org/foo"]).
  - vm_compute. reflexivity.
  - left.
Defined.

Lemma chunk_text_words_witness :
  List.concat (map split ["a b"; "c d"; "e"]) = split " a b  c d e ".
Proof.
  apply (chunk_text_words " a b  c d e " 2%Z ["a b"; "c d"; "e"]);
    [lia | vm_compute; reflexivity].
Defined.

Lemma chunk_text_sizes_witness :
  (∀ c, c ∈ ["a b"; "c d"; "e"] → 1 ≤ List.length (split c) ∧ List.length (split c) ≤ 2)
  ∧ List.length (split " a b  c d e ") ≤ List.length ["a b"; "c d"; "e"] * 2
  ∧ List.length ["a b"; "c d"; "e"] * 2 < List.length (split " a b  c d e ") + 2.
Proof.
  apply (chunk_text_sizes " a b  c d e " 2%Z ["a b"; "c d"; "e"]);
    [lia | vm_compute; reflexivity].
Defined.

Lemma fix_relative_urls_absolute_witness :
  map link_text (fix_relative_urls catalog_links catalog_base) = map link_text catalog_links
  ∧ ∀ l, l ∈ fix_relative_urls catalog_links catalog_base →
         link_href l = ""
         ∨ startswith (link_href l) "http://" || startswith (link_href l) "https://" = true.
Proof.
  apply (fix_relative_urls_absolute catalog_links catalog_base). vm_compute. reflexivity.
Defined.

Lemma fix_relative_urls_idempotent_witness :
  fix_relative_urls (fix_relative_urls catalog_links catalog_base) catalog_base
  = fix_relative_urls catalog_links catalog_base.
Proof.
  apply (fix_relative_urls_idempotent catalog_links catalog_base). vm_compute. reflexivity.
Defined.

Lemma queue_is_fifo_witness :
  ∃ added,
    urls_to_visit (loop_body (L := web) 5 (web_state 1)) = [] ++ added.
Proof.
  apply (queue_is_fifo (L := web) 5 (web_state 1) "https://h.org/a" []).
  vm_compute. reflexivity.
Defined.

Lemma no_links_at_the_bound_witness :
  urls_to_visit (loop_body (L := web) 1 web_init) = ["https://h.org/a"].
Proof.
  apply (no_links_at_the_bound (L := web) 1 web_init home ["https://h.org/a"]).
  - reflexivity.
  - vm_compute. lia.
Defined.

Lemma bound_of_zero_witness :
  main (L := web) 0 home 3 = Some web_init
  ∧ all_entries web_init = []
  ∧ visited_urls web_init = ∅
  ∧ requests web_init = [home].
Proof.
  apply (bound_of_zero (L := web) 0 home web_init 3); [reflexivity |].
  vm_compute. reflexivity.
Defined.

(** What the functions give on the fixtures. *)
Example fix_relative_urls_example :
  fix_relative_urls catalog_links catalog_base
  = [ Link "Courses" "https://catalog.clarku.edu/content.php?catoid=34";
      Link "Program" "https://catalog.clarku.edu/preview_program.php?poid=1";
      Link "" "";
      Link "Clark" "https://www.clarku.edu/" ]
  ∧ course_links catalog_links = [Link "Program" "preview_program.php?poid=1"].
Proof. split; vm_compute; reflexivity. Qed.

Example catalog_extract_links_example :
  Catalog.extract_links (L := web) a_html
  = Some [Link "x" "/b#x"; Link "y" "/b#y"].
Proof. vm_compute. reflexivity. Qed.

Example chunk_text_example :
  chunk_text " a b  c d e " 2%Z = Some ["a b"; "c d"; "e"]
  ∧ chunk_text "   " 2%Z = Some []
  ∧ chunk_text "a b" 0%Z = None
  ∧ chunk_text "a b c" (-1)%Z = Some [].
Proof. repeat split; vm_compute; reflexivity. Qed.

Example process_page_example :
  process_page (L := web) (Page (Some (VStr "T")) None (Some (VStr "one two"))) 7
  = ([ChunkEntry "7" (VStr "T") (VStr "") "one two"], 8)
  ∧ process_page (L := web) (Page (Some (VStr "T")) None None) 7
    = ([ChunkEntry "7" (VStr "T") (VStr "") "No content extracted"], 8)
  ∧ process_page (L := web) (Page None None (Some (VStr "  "))) 7 = ([], 7).
Proof. repeat split; vm_compute; reflexivity. Qed.

End MoreRuns.


(** ** The sibling loop and empty string nodes *)

Section EmptyStringNode.
Import PyStr PyRepr PyEval Soup Fixture Fixture3.

(** C6.  The loop over the siblings of a header is meant to run to the
    next header or the end, but its test [while sibling] is also false on
    an empty string node.  In [<pre><h3>x</h3><!---->y</pre>] the header
    is followed by an empty comment and then the text [y]: the code
    returns the section of [x] with the marker for no content, where the
    text of the siblings up to the next header is [y]. *)
Theorem empty_comment_ends_section :
  BeautifulSoup (Libraries := pre_web) pre_html = Some pre_doc
  ∧ extract_content (L := pre_web) pre_html home
    = Returned
        (Some "", Some "{'sections': [{'header': 'x', 'text': 'No content in this section'}]}")
  ∧ content_parts [Comment ""; Text "y"] = []
  ∧ section_text [Comment ""; Text "y"] = "y".
Proof. repeat split; vm_compute; reflexivity. Qed.

End EmptyStringNode.
